(** * supabase-branch-gh-action: the wait loop of [src/index.ts]

    A shallow embedding of [main] (and of [handleError]) of [src/index.ts]:
    the action waits for the Supabase preview branch named after the current
    git branch, then publishes its connection data as action outputs.

    The program is effectful: it reads the clock, calls the Supabase
    management API, logs, marks secrets, sets outputs and sleeps.  Every
    effect is recorded as an [event] in a trace; what the outside world
    answers (clock readings, API responses) is supplied by a [World].  The
    loop body is written in a small trace-and-completion monad so that it
    reads like the TypeScript. *)

From Stdlib Require Import ZArith QArith Qround List String Ascii Bool Lia.
From Stdlib Require Import DecimalString.
Import ListNotations.

Close Scope Q_scope.
Open Scope Z_scope.
Open Scope string_scope.

(** ** JavaScript values as the program uses them *)

Module JS.

(** A JavaScript number, as far as the timeout needs it: [NaN], the two
    infinities, or a finite value given by the rational it denotes.  The
    product [x * y] is rounded as a double is (to nearest, ties to even,
    with subnormals, overflowing to an infinity). *)
Inductive number : Type :=
| NaN
| NegInfinity
| Finite (q : Q)
| Infinity.

(** [Number.isNaN] *)
Definition isNaN (x : number) : bool :=
  match x with NaN => true | _ => false end.

Definition sign_of (q : Q) : comparison := (Qnum q ?= 0)%Z.

(** [2 ^ e] for any integer [e]. *)
Definition pow2 (e : Z) : Q :=
  if (e <? 0)%Z then 1 # Z.to_pos (2 ^ (- e)) else inject_Z (2 ^ e).

(** The double nearest to the positive rational [n / d]: [fl] is the integer
    part of its binary logarithm, [e] the exponent of the last place (never
    below that of the subnormals), [m'] the significand rounded to nearest,
    ties to even; from [2 ^ 1024] on the result is [Infinity]. *)
Definition roundPos (n d : positive) : number :=
  let k := (Z.log2 (Zpos n) - Z.log2 (Zpos d))%Z in
  let reached :=
    if (k <? 0)%Z then (Zpos d <=? Zpos n * 2 ^ (- k))%Z
    else (Zpos d * 2 ^ k <=? Zpos n)%Z in
  let fl := if reached then k else (k - 1)%Z in
  let e := Z.max (fl - 52) (-1074) in
  let N := if (e <? 0)%Z then (Zpos n * 2 ^ (- e))%Z else Zpos n in
  let D := if (e <? 0)%Z then Zpos d else (Zpos d * 2 ^ e)%Z in
  let m := (N / D)%Z in
  let r := (N mod D)%Z in
  let m' := if (2 * r <? D)%Z then m
            else if (D <? 2 * r)%Z then (m + 1)%Z
            else if Z.even m then m else (m + 1)%Z in
  if (971 <? e)%Z || ((e =? 971)%Z && (m' =? 2 ^ 53)%Z) then Infinity
  else Finite (inject_Z m' * pow2 e).

(** [- x] *)
Definition negate (x : number) : number :=
  match x with
  | NaN => NaN
  | NegInfinity => Infinity
  | Finite q => Finite (- q)
  | Infinity => NegInfinity
  end.

(** The double nearest to a rational. *)
Definition roundDouble (x : Q) : number :=
  match Qnum x with
  | Z0 => Finite 0
  | Zpos n => roundPos n (Qden x)
  | Zneg n => negate (roundPos n (Qden x))
  end.

(** [x * y] *)
Definition mul (x y : number) : number :=
  match x, y with
  | NaN, _ | _, NaN => NaN
  | Finite a, Finite b => roundDouble (a * b)
  | Finite a, Infinity | Infinity, Finite a =>
      match sign_of a with Eq => NaN | Lt => NegInfinity | Gt => Infinity end
  | Finite a, NegInfinity | NegInfinity, Finite a =>
      match sign_of a with Eq => NaN | Lt => Infinity | Gt => NegInfinity end
  | Infinity, Infinity | NegInfinity, NegInfinity => Infinity
  | Infinity, NegInfinity | NegInfinity, Infinity => NegInfinity
  end.

(** [x <= y] on rationals, as a boolean; [x < y] is its converse negated. *)
Definition Qltb (a b : Q) : bool := negb (Qle_bool b a).

(** [x < y]: false as soon as one side is [NaN]. *)
Definition lt (x y : number) : bool :=
  match x, y with
  | NaN, _ | _, NaN => false
  | _, NegInfinity => false
  | NegInfinity, _ => true
  | Infinity, _ => false
  | Finite _, Infinity => true
  | Finite a, Finite b => Qltb a b
  end.

(** [x >= y]: false as soon as one side is [NaN]. *)
Definition ge (x y : number) : bool :=
  match x, y with
  | NaN, _ | _, NaN => false
  | _, NegInfinity => true
  | NegInfinity, _ => false
  | Infinity, _ => true
  | Finite _, Infinity => false
  | Finite a, Finite b => Qle_bool b a
  end.

(** An integer-valued number, such as a difference of two [Date.now()]. *)
Definition ofZ (z : Z) : number := Finite (inject_Z z).

(** The values found in the fields the program reads: [undefined], a
    boolean, an integer number or a string. *)
Inductive value : Type :=
| Undefined
| Bool (b : bool)
| Number (n : Z)
| String (s : string).

(** Truthiness, as tested by [if (value)]. *)
Definition truthy (v : value) : bool :=
  match v with
  | Undefined => false
  | Bool b => b
  | Number n => negb (n =? 0)%Z
  | String s => negb (s =? "")%string
  end.

(** [n.toString()] for an integer [n] (decimal, with a leading minus). *)
Definition numberToString (n : Z) : string :=
  NilEmpty.string_of_int (Z.to_int n).

(** [value.toString()]; [`${value}`] for [undefined]. *)
Definition toString (v : value) : string :=
  match v with
  | Undefined => "undefined"
  | Bool true => "true"
  | Bool false => "false"
  | Number n => numberToString n
  | String s => s
  end.

(** [value === lit] for a string literal [lit]. *)
Definition strictEqString (v : value) (lit : string) : bool :=
  match v with
  | String s => (s =? lit)%string
  | _ => false
  end.

(** [s.split(sep)] for a non-empty separator: [skip] counts the characters
    of a separator still to be dropped, [piece] is the current piece. *)
Fixpoint splitFrom (sep s piece : string) (skip : nat) : list string :=
  match s with
  | EmptyString => [piece]
  | String.String ch rest =>
      match skip with
      | S k => splitFrom sep rest piece k
      | O =>
          if String.prefix sep s
          then piece :: splitFrom sep rest "" (Nat.pred (String.length sep))
          else splitFrom sep rest (piece ++ String.String ch "") O
      end
  end.

Definition split (s sep : string) : list string := splitFrom sep s "" O.

(** Truthiness of a possibly [undefined] string. *)
Definition truthyString (s : option string) : bool :=
  match s with
  | Some t => negb (t =? "")%string
  | None => false
  end.

End JS.

(** ** Data model: what the management API returns *)

(** One preview branch as listed by [getBranches]; the fields are the ones
    the program reads. *)
Module Branch.
Record t : Type := {
  id : string;
  name : string;
  project_ref : string;
  parent_project_ref : string;
  git_branch : option string;
  pr_number : option Z;
  reset_on_push : bool;
  status : string;
  created_at : string;
  updated_at : string
}.

Definition optString (s : option string) : JS.value :=
  match s with Some x => JS.String x | None => JS.Undefined end.

Definition optNumber (n : option Z) : JS.value :=
  match n with Some x => JS.Number x | None => JS.Undefined end.

(** [currentBranch[key]] *)
Definition get (b : t) (key : string) : JS.value :=
  if key =? "id" then JS.String (id b)
  else if key =? "name" then JS.String (name b)
  else if key =? "project_ref" then JS.String (project_ref b)
  else if key =? "parent_project_ref" then JS.String (parent_project_ref b)
  else if key =? "git_branch" then optString (git_branch b)
  else if key =? "pr_number" then optNumber (pr_number b)
  else if key =? "reset_on_push" then JS.Bool (reset_on_push b)
  else if key =? "status" then JS.String (status b)
  else if key =? "created_at" then JS.String (created_at b)
  else if key =? "updated_at" then JS.String (updated_at b)
  else JS.Undefined.
End Branch.

(** The record returned by [getBranchDetails]. *)
Module BranchDetails.
Record t : Type := {
  ref : string;
  db_host : string;
  db_port : Z;
  db_user : option string;
  db_pass : option string;
  jwt_secret : option string
}.

(** [branchDetails[key]] *)
Definition get (d : t) (key : string) : JS.value :=
  if key =? "db_host" then JS.String (db_host d)
  else if key =? "db_port" then JS.Number (db_port d)
  else if key =? "db_user" then Branch.optString (db_user d)
  else if key =? "db_pass" then Branch.optString (db_pass d)
  else if key =? "jwt_secret" then Branch.optString (jwt_secret d)
  else if key =? "ref" then JS.String (ref d)
  else JS.Undefined.
End BranchDetails.

(** One entry of [getProjectApiKeys]. *)
Module ApiKey.
Record t : Type := {
  name : string;
  api_key : string
}.
End ApiKey.

(** What a rejected API promise carries.  [status] is [None] for a rejection
    that has no numeric [status] property (a network failure). *)
Module ApiError.
Record t : Type := {
  name : string;
  message : string;
  status : option Z
}.

(** [`${err}`], that is [Error.prototype.toString]. *)
Definition toString (e : t) : string :=
  if name e =? "" then message e
  else if message e =? "" then name e
  else name e ++ ": " ++ message e.

(** [err.status === 429 || err.status >= 500] *)
Definition retryable (e : t) : bool :=
  match status e with
  | Some s => (s =? 429)%Z || (500 <=? s)%Z
  | None => false
  end.
End ApiError.

(** The [Error] the program throws: [new Error(message)] with its [cause]. *)
Record Error : Type := {
  message : string;
  cause : ApiError.t
}.

(** [`${err}`] for such an [Error]. *)
Definition errorToString (e : Error) : string :=
  if message e =? "" then "Error" else "Error: " ++ message e.

(** The settlement of an API promise.  A resolved detail or key promise may
    carry no value ([None], a [null] body). *)
Inductive promise (A : Type) : Type :=
| Resolved (v : A)
| Rejected (err : ApiError.t).
Arguments Resolved {A} v.
Arguments Rejected {A} err.

(** An error thrown by the actions toolkit while an input is read (by
    [core.getInput] with [required: true], or by [core.getBooleanInput]). *)
Module Thrown.
Record t : Type := {
  name : string;
  message : string
}.

(** [`${err}`], that is [Error.prototype.toString]. *)
Definition toString (e : t) : string :=
  if name e =? "" then message e
  else if message e =? "" then name e
  else name e ++ ": " ++ message e.
End Thrown.

(** How a call of the toolkit that reads an input ends. *)
Inductive read (A : Type) : Type :=
| Returned (v : A)
| Threw (err : Thrown.t).
Arguments Returned {A} v.
Arguments Threw {A} err.

(** ** Effects *)

Inductive event : Type :=
| DateNow (t : Z)                          (* Date.now() returned t *)
| GetBranches (ref : string)               (* databaseBranchesBeta.getBranches *)
| GetBranchDetails (branchId : string)     (* databaseBranchesBeta.getBranchDetails *)
| GetProjectApiKeys (ref : string)         (* projects.getProjectApiKeys *)
| CoreInfo (msg : string)
| CoreWarning (msg : string)
| SetSecret (secret : string)
| SetOutput (key value : string)
| SetFailed (msg : string)
| ConsoleLog (msg : string)
| ConsoleError (err : Error)
| ConsoleErrorThrown (err : Thrown.t)      (* console.error of a toolkit error *)
| Sleep (ms : Z).                          (* await setTimeout(resolve, ms) *)

Definition trace : Type := list event.

(** How a statement of the loop body completes. *)
Inductive completion (A : Type) : Type :=
| Normal (a : A)
| Continue
| Return
| Throw (e : Error).
Arguments Normal {A} a.
Arguments Continue {A}.
Arguments Return {A}.
Arguments Throw {A} e.

Definition M (A : Type) : Type := (trace * completion A)%type.

Definition ret {A} (a : A) : M A := ([], Normal a).

Definition bind {A B} (m : M A) (f : A -> M B) : M B :=
  match m with
  | (tr, Normal a) => let '(tr', c) := f a in ((tr ++ tr')%list, c)
  | (tr, Continue) => (tr, Continue)
  | (tr, Return) => (tr, Return)
  | (tr, Throw e) => (tr, Throw e)
  end.

Definition emit (e : event) : M unit := ([e], Normal tt).
Definition continue_ {A} : M A := ([], Continue).
Definition return_ {A} : M A := ([], Return).
Definition throw {A} (e : Error) : M A := ([], Throw e).

Notation "x <- m ;; k" := (bind m (fun x => k))
  (at level 61, m at next level, right associativity).
Notation "m ;; k" := (bind m (fun _ => k))
  (at level 61, right associativity).

(** [await call.catch(handler)]: the call is issued, then either its value
    is used or the handler decides. *)
Definition awaitCatch {A} (call : event) (p : promise A)
    (handler : ApiError.t -> M A) : M A :=
  emit call ;;
  match p with
  | Resolved v => ret v
  | Rejected err => handler err
  end.

(** [for (const x of xs) body x] *)
Fixpoint forOf {A} (xs : list A) (body : A -> M unit) : M unit :=
  match xs with
  | [] => ret tt
  | x :: rest => body x ;; forOf rest body
  end.

(** ** The outside world *)

(** The three API endpoints as they answer during one tick of the loop. *)
Record Remote : Type := {
  getBranches : string -> promise (list Branch.t);
  getBranchDetails : string -> promise (option BranchDetails.t);
  getProjectApiKeys : string -> promise (option (list ApiKey.t))
}.

(** [clock w 0] is what [const now = Date.now()] reads, [clock w (S k)] what
    the loop condition reads before tick [k]; [remote w k] answers the calls
    of tick [k]. *)
Record World : Type := {
  clock : nat -> Z;
  remote : nat -> Remote
}.

(** The inputs of one run, once the reads of lines 8 to 11 have returned:
    [timeout] is [Number(core.getInput("timeout"))], the last two are
    [process.env].  The reads themselves, which may throw, are [readInputs]
    below. *)
Module Input.
Record t : Type := {
  sbToken : string;
  sbRef : string;
  waitForMigrations : bool;
  timeout : JS.number;
  GITHUB_HEAD_REF : option string;
  GITHUB_REF : option string
}.
End Input.

(** The variables of [main] that the loop closes over. *)
Record Locals : Type := {
  sbRef : string;
  branchName : string;
  waitForMigrations : bool;
  timeout : JS.number
}.

(** ** The loop body (lines 56 to 173) *)

Definition branchKeys : list string :=
  [ "id"; "name"; "project_ref"; "parent_project_ref"; "git_branch";
    "pr_number"; "reset_on_push"; "status"; "created_at"; "updated_at" ].

Definition branchDetailsKeys : list string :=
  [ "db_host"; "db_port"; "db_user"; "db_pass"; "jwt_secret" ].

(** The condition of the [if] at lines 71 to 74. *)
Definition ready (waitForMigrations : bool) (currentBranch : option Branch.t) : bool :=
  match currentBranch with
  | None => false
  | Some b =>
      negb waitForMigrations
      || (Branch.status b =? "MIGRATIONS_PASSED")
      || (Branch.status b =? "FUNCTIONS_DEPLOYED")
  end.

(** [branches.find((b) => b.name === branchName)] *)
Definition findBranch (branchName : string) (branches : list Branch.t) : option Branch.t :=
  find (fun b => Branch.name b =? branchName) branches.

(** Lines 115 to 118. *)
Definition publishApiKeys (apiKeys : list ApiKey.t) : M unit :=
  forOf apiKeys (fun key =>
    emit (SetSecret (ApiKey.api_key key)) ;;
    emit (SetOutput (ApiKey.name key ++ "_key") (ApiKey.api_key key))).

(** Lines 132 to 141. *)
Definition publishBranch (currentBranch : Branch.t) : M unit :=
  forOf branchKeys (fun key =>
    let value := Branch.get currentBranch key in
    if JS.truthy value then
      let key :=
        if JS.strictEqString value "status" then key ++ "branch_status" else key in
      emit (SetSecret (JS.toString value)) ;;
      emit (SetOutput key (JS.toString value))
    else ret tt).

(** Lines 150 to 156. *)
Definition publishBranchDetails (branchDetails : BranchDetails.t) : M unit :=
  forOf branchDetailsKeys (fun key =>
    let value := BranchDetails.get branchDetails key in
    if JS.truthy value then
      emit (SetSecret (JS.toString value)) ;;
      emit (SetOutput key (JS.toString value))
    else ret tt).

(** Lines 158 to 165. *)
Definition publishUrls (branchDetails : BranchDetails.t) : M unit :=
  emit (SetOutput "api_url"
          ("https://" ++ BranchDetails.ref branchDetails ++ ".supabase.co/rest/v1")) ;;
  emit (SetOutput "graphql_url"
          ("https://" ++ BranchDetails.ref branchDetails ++ ".supabase.co/graphql/v1")).

(** [`${currentBranch?.status}`] *)
Definition statusText (currentBranch : option Branch.t) : string :=
  match currentBranch with
  | Some b => Branch.status b
  | None => "undefined"
  end.

(** Lines 170 to 173. *)
Definition waitStep (l : Locals) (currentBranch : option Branch.t) : M unit :=
  emit (CoreInfo ("Waiting for branch " ++ branchName l
                    ++ " to be created. Status=" ++ statusText currentBranch)) ;;
  emit (Sleep 2900).

(** The catch handler shared in shape by the three calls: warn and yield
    [fallback] on 429 or on 500 and above, throw otherwise. *)
Definition onError {A} (what : string) (fallback : A) (err : ApiError.t) : M A :=
  if ApiError.retryable err then
    emit (CoreWarning (what ++ ": " ++ ApiError.toString err)) ;;
    ret fallback
  else
    throw {| message := what; cause := err |}.

(** Lines 75 to 167: the branch was found and counts as ready. *)
Definition fetchAndPublish (l : Locals) (r : Remote) (currentBranch : Branch.t) : M unit :=
  emit (CoreInfo ("Branch " ++ branchName l ++ " found, status: "
                    ++ Branch.status currentBranch)) ;;
  branchDetails <-
    awaitCatch (GetBranchDetails (Branch.id currentBranch))
      (getBranchDetails r (Branch.id currentBranch))
      (onError "Error fetching branch details" None) ;;
  match branchDetails with
  | None => emit (CoreWarning "Branch details not found") ;; continue_
  | Some branchDetails =>
      apiKeys <-
        awaitCatch (GetProjectApiKeys (Branch.project_ref currentBranch))
          (getProjectApiKeys r (Branch.project_ref currentBranch))
          (onError "Error fetching api keys" None) ;;
      match apiKeys with
      | None => emit (CoreWarning "Api keys not found") ;; continue_
      | Some apiKeys =>
          publishApiKeys apiKeys ;;
          publishBranch currentBranch ;;
          publishBranchDetails branchDetails ;;
          publishUrls branchDetails ;;
          emit (CoreInfo "success") ;;
          return_
      end
  end.

(** One pass through the body of the [while]. *)
Definition body (l : Locals) (r : Remote) : M unit :=
  branches <-
    awaitCatch (GetBranches (sbRef l)) (getBranches r (sbRef l))
      (onError "Failed fetching fetching branches" []) ;;
  let currentBranch := findBranch (branchName l) branches in
  match (if ready (waitForMigrations l) currentBranch then currentBranch else None) with
  | Some found => fetchAndPublish l r found
  | None => waitStep l currentBranch
  end.

(** ** The loop and [main] *)

(** How the promise of [main] stands: fulfilled, rejected, or still pending
    when the iteration budget of the model is used up. *)
Inductive outcome : Type :=
| Fulfilled
| RejectedWith (e : Error)
| Pending.

(** [Date.now() - now < timeout * 1000] *)
Definition guard (l : Locals) (now t : Z) : bool :=
  JS.lt (JS.ofZ (t - now)) (JS.mul (timeout l) (JS.ofZ 1000)).

Definition timeoutMessage (l : Locals) : string :=
  "Timeout waiting for branch " ++ branchName l ++ " to be created".

(** The [while] of lines 55 to 174 followed by line 176, from tick [k] on.
    [fuel] bounds the number of condition checks. *)
Fixpoint loop (fuel : nat) (l : Locals) (now : Z) (w : World) (k : nat) : trace * outcome :=
  match fuel with
  | O => ([], Pending)
  | S fuel' =>
      let t := clock w (S k) in
      if guard l now t then
        match body l (remote w k) with
        | (tr, Normal _) | (tr, Continue) =>
            let '(tr', o) := loop fuel' l now w (S k) in
            (DateNow t :: tr ++ tr', o)%list
        | (tr, Return) => (DateNow t :: tr, Fulfilled)
        | (tr, Throw e) => (DateNow t :: tr, RejectedWith e)
        end
      else ([DateNow t; SetFailed (timeoutMessage l)], Fulfilled)
  end.

(** Lines 37 to 41. *)
Definition resolveBranchName (i : Input.t) : option string :=
  if JS.truthyString (Input.GITHUB_HEAD_REF i) then Input.GITHUB_HEAD_REF i
  else
    nth_error
      (JS.split (match Input.GITHUB_REF i with Some s => s | None => "" end)
         "refs/heads/") 1.

(** [main] once its inputs are read: lines 13 to 177, entered with the
    values that lines 8 to 11 returned. *)
Definition main (fuel : nat) (i : Input.t) (w : World) : trace * outcome :=
  let pre := [SetSecret (Input.sbToken i); SetSecret (Input.sbRef i)] in
  if Input.sbToken i =? "" then
    (pre ++ [SetFailed "Supabase access token is not defined"], Fulfilled)%list
  else if Input.sbRef i =? "" then
    (pre ++ [SetFailed "Supabase project id is not defined"], Fulfilled)%list
  else if JS.isNaN (Input.timeout i) then
    (pre ++ [SetFailed "Timeout is not a valid number"], Fulfilled)%list
  else
    let branchName := resolveBranchName i in
    let pre :=
      (pre ++ [ConsoleLog (JS.toString (Branch.optString branchName))])%list in
    match branchName with
    | Some bn =>
        if bn =? "" then (pre ++ [SetFailed "Git branch not found"], Fulfilled)%list
        else
          let l := {| sbRef := Input.sbRef i; branchName := bn;
                      waitForMigrations := Input.waitForMigrations i;
                      timeout := Input.timeout i |} in
          let now := clock w O in
          let '(tr, o) := loop fuel l now w O in
          (pre ++ CoreInfo ("Current Git branch: " ++ bn) :: DateNow now :: tr, o)%list
    | None => (pre ++ [SetFailed "Git branch not found"], Fulfilled)%list
    end.

(** [handleError], lines 181 to 184. *)
Definition handleError (err : Error) : trace :=
  [ConsoleError err; SetFailed ("Unhandled error: " ++ errorToString err)].

(** [main().catch(handleError)], line 5, for a [main] whose input reads
    returned. *)
Definition run (fuel : nat) (i : Input.t) (w : World) : trace * outcome :=
  match main fuel i w with
  | (tr, RejectedWith e) => ((tr ++ handleError e)%list, Fulfilled)
  | res => res
  end.

(** How the reads of lines 8 to 11 end: the two required inputs and the
    boolean input are read by calls of the toolkit that either return or
    throw; reading the timeout does not throw. *)
Module Reads.
Record t : Type := {
  sbToken : read string;
  sbRef : read string;
  waitForMigrations : read bool;
  timeout : JS.number;
  GITHUB_HEAD_REF : option string;
  GITHUB_REF : option string
}.
End Reads.

(** Lines 8 to 11: the reads in their order; the first that throws ends
    them. *)
Definition readInputs (rd : Reads.t) : read Input.t :=
  match Reads.sbToken rd with
  | Threw err => Threw err
  | Returned token =>
      match Reads.sbRef rd with
      | Threw err => Threw err
      | Returned ref =>
          match Reads.waitForMigrations rd with
          | Threw err => Threw err
          | Returned flag =>
              Returned {| Input.sbToken := token; Input.sbRef := ref;
                          Input.waitForMigrations := flag;
                          Input.timeout := Reads.timeout rd;
                          Input.GITHUB_HEAD_REF := Reads.GITHUB_HEAD_REF rd;
                          Input.GITHUB_REF := Reads.GITHUB_REF rd |}
          end
      end
  end.

(** [handleError] for an error of the toolkit. *)
Definition handleThrown (err : Thrown.t) : trace :=
  [ConsoleErrorThrown err; SetFailed ("Unhandled error: " ++ Thrown.toString err)].

(** The whole action, line 5 with lines 7 to 177: [main] reads its inputs
    and, when a read throws, is rejected at once with the error thrown;
    [handleError] catches every rejection. *)
Definition action (fuel : nat) (rd : Reads.t) (w : World) : trace * outcome :=
  match readInputs rd with
  | Returned i => run fuel i w
  | Threw err => (handleThrown err, Fulfilled)
  end.

(** ** Observations on traces *)

(** The outputs set along a trace, in order, as (key, value). *)
Fixpoint outputs (tr : trace) : list (string * string) :=
  match tr with
  | [] => []
  | SetOutput k v :: rest => (k, v) :: outputs rest
  | _ :: rest => outputs rest
  end.

Definition isRemoteCall (e : event) : bool :=
  match e with
  | GetBranches _ | GetBranchDetails _ | GetProjectApiKeys _ => true
  | _ => false
  end.

(** The calls to the management API along a trace. *)
Definition remoteCalls (tr : trace) : trace := filter isRemoteCall tr.

Definition isWarning (e : event) : bool :=
  match e with CoreWarning _ => true | _ => false end.

Definition isSleep (e : event) : bool :=
  match e with Sleep _ => true | _ => false end.

Definition isClock (e : event) : bool :=
  match e with DateNow _ => true | _ => false end.

(** The two outputs that line 158 to 165 set without marking them secret. *)
Definition isUrlKey (key : string) : bool :=
  (key =? "api_url") || (key =? "graphql_url").

(** The events the loop body emits one at a time. *)
Definition isPlain (e : event) : bool :=
  match e with
  | GetBranches _ | GetBranchDetails _ | GetProjectApiKeys _
  | CoreInfo _ | CoreWarning _ | Sleep _ => true
  | _ => false
  end.

(** A trace without clock readings. *)
Definition noClock (tr : trace) : Prop := Forall (fun e => isClock e = false) tr.

(** The masking discipline of a trace: it is made of pairs "mark [v] secret,
    then set a non-URL output to [v]", of URL outputs standing alone, and of
    events that neither mark nor set; a lone [SetSecret] is allowed only
    before an event that sets nothing. *)
Inductive masked : trace -> Prop :=
| masked_nil : masked []
| masked_pair k v rest :
    isUrlKey k = false -> masked rest ->
    masked (SetSecret v :: SetOutput k v :: rest)
| masked_url k v rest :
    isUrlKey k = true -> masked rest -> masked (SetOutput k v :: rest)
| masked_lone v e rest :
    outputs [e] = [] -> masked (e :: rest) -> masked (SetSecret v :: e :: rest)
| masked_other e rest :
    outputs [e] = [] -> (forall v, e <> SetSecret v) -> masked rest ->
    masked (e :: rest).

(** The notice of line 75. *)
Definition foundNotice (l : Locals) (b : Branch.t) : event :=
  CoreInfo ("Branch " ++ branchName l ++ " found, status: " ++ Branch.status b).

(** The event just before a position: the last event of the prefix. *)
Fixpoint lastEvent (tr : trace) : option event :=
  match tr with
  | [] => None
  | [e] => Some e
  | _ :: rest => lastEvent rest
  end.

(** The messages passed to [core.setFailed] along a trace. *)
Fixpoint failures (tr : trace) : list string :=
  match tr with
  | [] => []
  | SetFailed msg :: rest => msg :: failures rest
  | _ :: rest => failures rest
  end.

(** [msg] contains [part]. *)
Definition mentions (msg part : string) : Prop :=
  exists before after, msg = before ++ part ++ after.

(** The failure messages with which [main] rejects its configuration. *)
Definition configurationErrors : list string :=
  [ "Supabase access token is not defined";
    "Supabase project id is not defined";
    "Timeout is not a valid number";
    "Git branch not found" ].

(** The readiness rule in the words of the specification: without the flag a
    present candidate is ready; with it, a present candidate whose status is
    one of the two terminal successes. *)
Definition specReady (flag present : bool) (status : string) : bool :=
  if flag
  then present && ((status =? "MIGRATIONS_PASSED") || (status =? "FUNCTIONS_DEPLOYED"))
  else present.

Definition present (candidate : option Branch.t) : bool :=
  match candidate with Some _ => true | None => false end.

(** What one truthy field contributes to the outputs, by the documented
    rule: its own name and its stringified value. *)
Definition fieldOutput (key : string) (value : JS.value) : list (string * string) :=
  if JS.truthy value then [(key, JS.toString value)] else [].

(** The outputs the documentation promises for a summary and for a detail. *)
Definition documentedBranchOutputs (b : Branch.t) : list (string * string) :=
  flat_map (fun key => fieldOutput key (Branch.get b key)) branchKeys.

Definition documentedDetailOutputs (d : BranchDetails.t) : list (string * string) :=
  flat_map (fun key => fieldOutput key (BranchDetails.get d key)) branchDetailsKeys.

(** What the summary loop sets: each truthy field once, under its own name
    unless its value is the string "status". *)
Definition branchOutput (b : Branch.t) (key : string) : list (string * string) :=
  let value := Branch.get b key in
  if JS.truthy value then
    [(if JS.strictEqString value "status" then key ++ "branch_status" else key,
      JS.toString value)]
  else [].

(** Everything the publishing phase sets, in order. *)
Definition fullOutputs (b : Branch.t) (d : BranchDetails.t) (keys : list ApiKey.t)
  : list (string * string) :=
  (map (fun k => ((ApiKey.name k ++ "_key")%string, ApiKey.api_key k)) keys
   ++ flat_map (branchOutput b) branchKeys
   ++ documentedDetailOutputs d
   ++ [ ("api_url",
         ("https://" ++ BranchDetails.ref d ++ ".supabase.co/rest/v1")%string);
        ("graphql_url",
         ("https://" ++ BranchDetails.ref d ++ ".supabase.co/graphql/v1")%string) ])%list.

(** Concrete data used in the examples below. *)
Definition sampleBranch (name status : string) : Branch.t :=
  {| Branch.id := "b-1"; Branch.name := name;
     Branch.project_ref := "childref"; Branch.parent_project_ref := "parentref";
     Branch.git_branch := Some name; Branch.pr_number := Some 42;
     Branch.reset_on_push := false; Branch.status := status;
     Branch.created_at := "2024-01-01T00:00:00Z";
     Branch.updated_at := "2024-01-02T00:00:00Z" |}.

Definition sampleDetails : BranchDetails.t :=
  {| BranchDetails.ref := "childref"; BranchDetails.db_host := "db.childref.supabase.co";
     BranchDetails.db_port := 5432; BranchDetails.db_user := Some "postgres";
     BranchDetails.db_pass := Some "hunter2"; BranchDetails.jwt_secret := Some "jwt" |}.

Definition sampleKeys : list ApiKey.t :=
  [ {| ApiKey.name := "anon"; ApiKey.api_key := "anon-secret" |};
    {| ApiKey.name := "service_role"; ApiKey.api_key := "service-secret" |} ].

Definition serverError (code : Z) : ApiError.t :=
  {| ApiError.name := "ApiError"; ApiError.message := "Internal Server Error";
     ApiError.status := Some code |}.

Definition sampleLocals (flag : bool) (seconds : Q) : Locals :=
  {| sbRef := "parentref"; branchName := "feat-x";
     waitForMigrations := flag; timeout := JS.Finite seconds |}.

(** The locals of a run on the git branch called "status". *)
Definition statusLocals : Locals :=
  {| sbRef := "parentref"; branchName := "status";
     waitForMigrations := true; timeout := JS.Finite 60 |}.

(** The outputs set under a given key. *)
Definition outputsUnder (key : string) (outs : list (string * string))
  : list (string * string) :=
  filter (fun kv => fst kv =? key) outs.

Definition sampleInput (t : JS.number) : Input.t :=
  {| Input.sbToken := "sbp_token"; Input.sbRef := "parentref";
     Input.waitForMigrations := false; Input.timeout := t;
     Input.GITHUB_HEAD_REF := None; Input.GITHUB_REF := Some "refs/heads/feat-x" |}.

(** A remote that lists [branches] and answers the two later calls with the
    given promises. *)
Definition remoteOf (branches : promise (list Branch.t))
    (details : promise (option BranchDetails.t))
    (keys : promise (option (list ApiKey.t))) : Remote :=
  {| getBranches := fun _ => branches;
     getBranchDetails := fun _ => details;
     getProjectApiKeys := fun _ => keys |}.

(** A world whose clock advances by [stepMs] per reading and whose remote is
    the same at every tick. *)
Definition steadyWorld (stepMs : Z) (r : Remote) : World :=
  {| clock := fun n => 1000000 + stepMs * Z.of_nat n; remote := fun _ => r |}.

(** The events of a sample run that succeeds at its first tick. *)
Definition sampleRun : trace :=
  fst (run 3 (sampleInput (JS.ofZ 60))
         (steadyWorld 2900
            (remoteOf (Resolved [sampleBranch "feat-x" "MIGRATIONS_PASSED"])
               (Resolved (Some sampleDetails)) (Resolved (Some sampleKeys))))).

(** ** Further observations *)

(** [sep] occurs somewhere in [s]. *)
Fixpoint occurs (sep s : string) : bool :=
  match s with
  | EmptyString => String.prefix sep s
  | String.String _ rest => String.prefix sep s || occurs sep rest
  end.

(** The last character of a string. *)
Fixpoint lastChar (s : string) : option ascii :=
  match s with
  | EmptyString => None
  | String.String c EmptyString => Some c
  | String.String _ rest => lastChar rest
  end.

(** The input with another [GITHUB_REF]. *)
Definition withGithubRef (i : Input.t) (ref : option string) : Input.t :=
  {| Input.sbToken := Input.sbToken i; Input.sbRef := Input.sbRef i;
     Input.waitForMigrations := Input.waitForMigrations i;
     Input.timeout := Input.timeout i;
     Input.GITHUB_HEAD_REF := Input.GITHUB_HEAD_REF i;
     Input.GITHUB_REF := ref |}.

(** The messages of the errors thrown by the three catch handlers. *)
Definition fatalMessages : list string :=
  [ "Failed fetching fetching branches";
    "Error fetching branch details";
    "Error fetching api keys" ].

(** The two URL outputs of lines 158 to 165. *)
Definition urlOutputs (d : BranchDetails.t) : list (string * string) :=
  [ ("api_url", "https://" ++ BranchDetails.ref d ++ ".supabase.co/rest/v1");
    ("graphql_url", "https://" ++ BranchDetails.ref d ++ ".supabase.co/graphql/v1") ].

(** The outputs of a successful tick that do not come from a credential. *)
Definition fixedOutputs (b : Branch.t) (d : BranchDetails.t) : list (string * string) :=
  (flat_map (branchOutput b) branchKeys ++ documentedDetailOutputs d ++ urlOutputs d)%list.

(** The field an output key stands for: the key itself, or the key without
    the [branch_status] that line 136 appends. *)
Definition sourceKey (key : string) : string :=
  match find (fun k => (k ++ "branch_status" =? key)) branchKeys with
  | Some k => k
  | None => key
  end.

(** The candidate a tick acts upon: the first listed branch named after the
    git branch, when the listing was answered and that branch counts as
    ready. *)
Definition actedUpon (l : Locals) (r : Remote) : option Branch.t :=
  match getBranches r (sbRef l) with
  | Resolved branches =>
      if ready (waitForMigrations l) (findBranch (branchName l) branches)
      then findBranch (branchName l) branches else None
  | Rejected _ => None
  end.

(** A world whose listing is always empty. *)
Definition emptyWorld (stepMs : Z) : World :=
  steadyWorld stepMs (remoteOf (Resolved []) (Resolved None) (Resolved None)).

(** What a trace holds, by the way its run stands: a fulfilled run has
    either set outputs and reported no failure, or set nothing and reported
    one failure (with an [allowed] message); a rejected or pending run has
    done neither. *)
Definition settled (allowed : string -> Prop) (tr : trace) (o : outcome) : Prop :=
  match o with
  | Fulfilled =>
      (outputs tr <> [] /\ failures tr = [])
      \/ (outputs tr = [] /\ exists msg, failures tr = [msg] /\ allowed msg)
  | RejectedWith e =>
      outputs tr = [] /\ failures tr = []
      /\ In (message e) fatalMessages /\ ApiError.retryable (cause e) = false
  | Pending => outputs tr = [] /\ failures tr = []
  end.

(** The failure messages [main] itself can report. *)
Definition mainFailure (msg : string) : Prop :=
  In msg configurationErrors
  \/ exists bn, msg = "Timeout waiting for branch " ++ bn ++ " to be created".

(** Every [SetSecret] of the trace is followed at once by an output of the
    marked value. *)
Definition marksOnlyOutputs (tr : trace) : Prop :=
  forall pre v post, tr = (pre ++ SetSecret v :: post)%list ->
  exists k post', post = SetOutput k v :: post'.

(** The inputs of a run on a pull request whose head branch is [feat-x]. *)
Definition pullRequestInput : Input.t :=
  {| Input.sbToken := "sbp_token"; Input.sbRef := "parentref";
     Input.waitForMigrations := false; Input.timeout := JS.ofZ 60;
     Input.GITHUB_HEAD_REF := Some "feat-x"; Input.GITHUB_REF := None |}.

(** The fields behind the outputs that do not come from a credential. *)
Definition fixedKeys : list string :=
  (branchKeys ++ branchDetailsKeys ++ ["api_url"; "graphql_url"])%list.

(** Whether the field behind a fixed key is set as an output. *)
Definition isSet (b : Branch.t) (d : BranchDetails.t) (key : string) : bool :=
  if existsb (String.eqb key) branchKeys then JS.truthy (Branch.get b key)
  else if existsb (String.eqb key) branchDetailsKeys
       then JS.truthy (BranchDetails.get d key)
       else true.

Definition isSecret (e : event) : bool :=
  match e with SetSecret _ => true | _ => false end.

(** The error the toolkit throws for a required input that is not supplied. *)
Definition notSupplied (input : string) : Thrown.t :=
  {| Thrown.name := "Error";
     Thrown.message := "Input required and not supplied: " ++ input |}.

(** Reads that all return, with the values of [i]. *)
Definition readsOf (i : Input.t) : Reads.t :=
  {| Reads.sbToken := Returned (Input.sbToken i);
     Reads.sbRef := Returned (Input.sbRef i);
     Reads.waitForMigrations := Returned (Input.waitForMigrations i);
     Reads.timeout := Input.timeout i;
     Reads.GITHUB_HEAD_REF := Input.GITHUB_HEAD_REF i;
     Reads.GITHUB_REF := Input.GITHUB_REF i |}.

(** Reads of a run whose access token is not supplied. *)
Definition readsWithoutToken : Reads.t :=
  {| Reads.sbToken := Threw (notSupplied "supabase-access-token");
     Reads.sbRef := Returned "parentref";
     Reads.waitForMigrations := Returned false;
     Reads.timeout := JS.ofZ 60;
     Reads.GITHUB_HEAD_REF := None;
     Reads.GITHUB_REF := Some "refs/heads/feat-x" |}.

(** The values of the status enum, as the management API documents them
    (line 70 points to their list). *)
Definition apiBranchStatuses : list string :=
  [ "CREATING_PROJECT"; "RUNNING_MIGRATIONS"; "MIGRATIONS_PASSED";
    "MIGRATIONS_FAILED"; "FUNCTIONS_DEPLOYED"; "FUNCTIONS_FAILED" ].

(** * Properties *)

Example split_heads : JS.split "refs/heads/feat-x" "refs/heads/" = [""; "feat-x"].
Proof. reflexivity. Qed.

Example split_tag : JS.split "refs/tags/v1" "refs/heads/" = ["refs/tags/v1"].
Proof. reflexivity. Qed.

Example toString_number : JS.toString (JS.Number 5432) = "5432".
Proof. reflexivity. Qed.

(** ** The monad *)

Lemma bind_normal {A B} (m : M A) (f : A -> M B) (a : A) :
  snd m = Normal a ->
  bind m f = ((fst m ++ fst (f a))%list, snd (f a)).
Proof.
  destruct m as [tr c]; simpl; intros ->.
  destruct (f a); reflexivity.
Qed.

Lemma bind_emit {B} (e : event) (k : unit -> M B) :
  bind (emit e) k = (e :: fst (k tt), snd (k tt)).
Proof. unfold emit; simpl. destruct (k tt); reflexivity. Qed.

Lemma bind_ret {A B} (a : A) (k : A -> M B) : bind (ret a) k = k a.
Proof. unfold ret; simpl. destruct (k a); reflexivity. Qed.

Lemma fst_bind_cases {A B} (m : M A) (f : A -> M B) :
  fst (bind m f) = fst m \/
  exists a, snd m = Normal a /\ fst (bind m f) = (fst m ++ fst (f a))%list.
Proof.
  destruct m as [tr [a | | | e]]; simpl; auto.
  right; exists a; split; [reflexivity|]. destruct (f a); reflexivity.
Qed.

Lemma outputs_app (a b : trace) : outputs (a ++ b)%list = (outputs a ++ outputs b)%list.
Proof.
  induction a as [|e a IH]; simpl; [reflexivity|].
  destruct e; simpl; rewrite ?IH; reflexivity.
Qed.

(** Trace properties that hold of the empty trace and are kept by
    concatenation pass from the parts of a computation to the whole. *)
Section ClosedProperties.
Variable P : trace -> Prop.
Hypothesis P_nil : P [].
Hypothesis P_app : forall a b, P a -> P b -> P (a ++ b)%list.

Lemma closed_bind {A B} (m : M A) (f : A -> M B) :
  P (fst m) -> (forall a, P (fst (f a))) -> P (fst (bind m f)).
Proof.
  intros Hm Hf.
  destruct (fst_bind_cases m f) as [-> | (a & _ & ->)]; auto.
Qed.

Lemma closed_ret {A} (a : A) : P (fst (ret a)).
Proof. exact P_nil. Qed.

Lemma closed_forOf {A} (xs : list A) (f : A -> M unit) :
  (forall x, In x xs -> P (fst (f x))) -> P (fst (forOf xs f)).
Proof.
  induction xs as [|x xs IH]; simpl; intros H.
  - exact P_nil.
  - apply closed_bind; [apply H; auto|].
    intros _; apply IH; intros y Hy; apply H; auto.
Qed.

Lemma closed_awaitCatch {A} (call : event) (p : promise A)
    (handler : ApiError.t -> M A) :
  P [call] -> (forall err, P (fst (handler err))) ->
  P (fst (awaitCatch call p handler)).
Proof.
  intros Hc Hh. unfold awaitCatch.
  apply closed_bind; [exact Hc|].
  intros _; destruct p; [apply closed_ret | apply Hh].
Qed.

Lemma closed_onError {A} (what : string) (fallback : A) (err : ApiError.t) :
  (forall msg, P [CoreWarning msg]) -> P (fst (onError what fallback err)).
Proof.
  intros Hw. unfold onError.
  destruct (ApiError.retryable err); [|exact P_nil].
  apply closed_bind; [apply Hw | intros _; apply closed_ret].
Qed.
End ClosedProperties.

Lemma forOf_cons {A} (x : A) (xs : list A) (f : A -> M unit) :
  forOf (x :: xs) f = (f x ;; forOf xs f).
Proof. reflexivity. Qed.

(** A loop whose iterations complete normally completes normally. *)
Lemma forOf_normal {A} (xs : list A) (f : A -> M unit) :
  (forall x, snd (f x) = Normal tt) -> snd (forOf xs f) = Normal tt.
Proof.
  intros H; induction xs as [|x xs IH]; simpl; [reflexivity|].
  rewrite (bind_normal _ _ tt) by apply H. exact IH.
Qed.

Lemma forOf_outputs {A} (xs : list A) (f : A -> M unit) :
  (forall x, snd (f x) = Normal tt) ->
  outputs (fst (forOf xs f)) = flat_map (fun x => outputs (fst (f x))) xs.
Proof.
  intros H; induction xs as [|x xs IH]; simpl; [reflexivity|].
  rewrite (bind_normal _ _ tt) by apply H.
  simpl. rewrite outputs_app, IH. reflexivity.
Qed.

(** ** The three publishing loops *)

Lemma publishApiKeys_normal keys : snd (publishApiKeys keys) = Normal tt.
Proof. apply forOf_normal; intros k; reflexivity. Qed.

Lemma publishBranch_step_normal b key :
  snd (let value := Branch.get b key in
       if JS.truthy value then
         let key :=
           if JS.strictEqString value "status" then key ++ "branch_status" else key in
         emit (SetSecret (JS.toString value)) ;;
         emit (SetOutput key (JS.toString value))
       else ret tt) = Normal tt.
Proof. cbv zeta. destruct (JS.truthy _); reflexivity. Qed.

Lemma publishBranch_normal b : snd (publishBranch b) = Normal tt.
Proof. apply forOf_normal; intros key; apply publishBranch_step_normal. Qed.

Lemma publishBranchDetails_normal d : snd (publishBranchDetails d) = Normal tt.
Proof.
  apply forOf_normal; intros key; cbv zeta.
  destruct (JS.truthy _); reflexivity.
Qed.

Lemma publishApiKeys_outputs keys :
  outputs (fst (publishApiKeys keys))
  = map (fun k => (ApiKey.name k ++ "_key", ApiKey.api_key k)) keys.
Proof.
  induction keys as [|k keys IH]; [reflexivity|].
  unfold publishApiKeys in *. rewrite forOf_cons.
  rewrite (bind_normal _ _ tt) by reflexivity.
  cbn [fst]. rewrite outputs_app, IH. reflexivity.
Qed.

Lemma publishBranchDetails_outputs d :
  outputs (fst (publishBranchDetails d)) = documentedDetailOutputs d.
Proof.
  unfold publishBranchDetails, documentedDetailOutputs.
  rewrite forOf_outputs.
  - apply flat_map_ext; intros key. unfold fieldOutput.
    destruct (JS.truthy _); reflexivity.
  - intros key; cbv zeta. destruct (JS.truthy _); reflexivity.
Qed.

Lemma publishBranch_outputs b :
  outputs (fst (publishBranch b)) = flat_map (branchOutput b) branchKeys.
Proof.
  unfold publishBranch. rewrite forOf_outputs.
  - apply flat_map_ext; intros key. unfold branchOutput; cbv zeta.
    destruct (JS.truthy _); reflexivity.
  - intros key; apply publishBranch_step_normal.
Qed.

(** ** Resolver and readiness (lines 56 to 74) *)

Lemma findBranch_present name branches :
  present (findBranch name branches) = true <->
  exists b, In b branches /\ Branch.name b = name.
Proof.
  unfold findBranch. split.
  - destruct (find _ branches) as [b|] eqn:E; [intros _ | discriminate].
    apply find_some in E. destruct E as [Hin Heq].
    apply String.eqb_eq in Heq. eauto.
  - intros (b & Hin & Heq).
    destruct (find _ branches) as [b'|] eqn:E; [reflexivity|].
    apply (find_none _ _ E) in Hin.
    apply String.eqb_neq in Hin. contradiction.
Qed.

Lemma body_listing l r branches :
  getBranches r (sbRef l) = Resolved branches ->
  body l r =
    bind (emit (GetBranches (sbRef l)))
      (fun _ =>
         match (if ready (waitForMigrations l) (findBranch (branchName l) branches)
                then findBranch (branchName l) branches else None) with
         | Some found => fetchAndPublish l r found
         | None => waitStep l (findBranch (branchName l) branches)
         end).
Proof.
  intros H. unfold body, awaitCatch. rewrite H.
  unfold bind, emit, ret.
  destruct (match _ with Some found => _ | None => _ end); reflexivity.
Qed.

(** While the candidate does not count as ready, the tick is the listing
    call, the progress notice and the fixed sleep, and it completes
    normally. *)
Lemma body_not_ready l r branches :
  getBranches r (sbRef l) = Resolved branches ->
  ready (waitForMigrations l) (findBranch (branchName l) branches) = false ->
  body l r =
    ([ GetBranches (sbRef l);
       CoreInfo ("Waiting for branch " ++ branchName l ++ " to be created. Status="
                   ++ statusText (findBranch (branchName l) branches));
       Sleep 2900 ], Normal tt).
Proof.
  intros H Hr. rewrite (body_listing l r branches H), Hr. reflexivity.
Qed.

Lemma body_ready l r branches b :
  getBranches r (sbRef l) = Resolved branches ->
  findBranch (branchName l) branches = Some b ->
  ready (waitForMigrations l) (Some b) = true ->
  body l r =
    (GetBranches (sbRef l) :: fst (fetchAndPublish l r b),
     snd (fetchAndPublish l r b)).
Proof.
  intros H Hf Hr. rewrite (body_listing l r branches H), Hf, Hr.
  apply bind_emit.
Qed.

(** C1. The readiness test is a function of the candidate's presence, its
    status and the wait-for-migrations flag, and agrees with the rule of the
    specification: the candidate is the first listed branch named after the
    git branch; without the flag it is ready iff present; with the flag iff
    present with status MIGRATIONS_PASSED or FUNCTIONS_DEPLOYED.  A tick
    whose candidate is not ready only waits (so the loop goes on); a ready
    one enters the fetch-and-publish phase. *)
Theorem readiness_classifier (l : Locals) (r : Remote) (branches : list Branch.t) :
  getBranches r (sbRef l) = Resolved branches ->
  let candidate := findBranch (branchName l) branches in
  let isReady := ready (waitForMigrations l) candidate in
  isReady = specReady (waitForMigrations l) (present candidate) (statusText candidate)
  /\ (present candidate = true <->
      exists b, In b branches /\ Branch.name b = branchName l)
  /\ (waitForMigrations l = false -> (isReady = true <-> present candidate = true))
  /\ (waitForMigrations l = true ->
      (isReady = true <->
       exists b, candidate = Some b
                 /\ (Branch.status b = "MIGRATIONS_PASSED"
                     \/ Branch.status b = "FUNCTIONS_DEPLOYED")))
  /\ (isReady = false ->
      body l r =
        ([ GetBranches (sbRef l);
           CoreInfo ("Waiting for branch " ++ branchName l
                       ++ " to be created. Status=" ++ statusText candidate);
           Sleep 2900 ], Normal tt))
  /\ (forall b, isReady = true -> candidate = Some b ->
      body l r =
        (GetBranches (sbRef l) :: fst (fetchAndPublish l r b),
         snd (fetchAndPublish l r b))).
Proof.
  intros H candidate isReady. subst isReady.
  repeat split.
  - unfold ready, specReady, present. destruct candidate as [b|].
    + destruct (waitForMigrations l); simpl; [|reflexivity].
      destruct (Branch.status b =? "MIGRATIONS_PASSED"); reflexivity.
    + destruct (waitForMigrations l); reflexivity.
  - apply findBranch_present.
  - apply findBranch_present.
  - rewrite H0. destruct candidate; simpl; [reflexivity | discriminate].
  - rewrite H0. destruct candidate; simpl; [reflexivity | discriminate].
  - rewrite H0. destruct candidate as [b|]; simpl; [|discriminate].
    intros Hs. exists b. split; [reflexivity|].
    apply orb_true_iff in Hs.
    destruct Hs as [Hs | Hs]; apply String.eqb_eq in Hs; auto.
  - rewrite H0. intros (b & -> & [Hs | Hs]); simpl; rewrite Hs; reflexivity.
  - intros Hr. apply (body_not_ready l r branches H Hr).
  - intros b Hr Hc. apply (body_ready l r branches b H Hc).
    fold candidate in Hr. rewrite Hc in Hr. exact Hr.
Qed.

Lemma readiness_classifier_witness :
  ready true (findBranch "feat-x" [sampleBranch "feat-x" "RUNNING_MIGRATIONS"])
  = specReady true true "RUNNING_MIGRATIONS".
Proof.
  exact (proj1 (readiness_classifier
                  (sampleLocals true 5)
                  (remoteOf (Resolved [sampleBranch "feat-x" "RUNNING_MIGRATIONS"])
                     (Resolved (Some sampleDetails)) (Resolved (Some sampleKeys)))
                  [sampleBranch "feat-x" "RUNNING_MIGRATIONS"] eq_refl)).
Defined.

(** ** Failures of the remote calls *)

Lemma retryable_spec err :
  ApiError.retryable err = true <->
  exists s, ApiError.status err = Some s /\ (s = 429 \/ 500 <= s).
Proof.
  unfold ApiError.retryable. destruct (ApiError.status err) as [s|].
  - rewrite orb_true_iff, Z.eqb_eq, Z.leb_le. split.
    + intros H; exists s; auto.
    + intros (s' & E & H); injection E as <-; exact H.
  - split; [discriminate | intros (s & E & _); discriminate].
Qed.

Lemma retryable_not err :
  ~ (exists s, ApiError.status err = Some s /\ (s = 429 \/ 500 <= s)) ->
  ApiError.retryable err = false.
Proof.
  intros H. destruct (ApiError.retryable err) eqn:E; [|reflexivity].
  apply retryable_spec in E. contradiction.
Qed.

Lemma body_listing_retryable l r err :
  getBranches r (sbRef l) = Rejected err ->
  ApiError.retryable err = true ->
  body l r =
    ([ GetBranches (sbRef l);
       CoreWarning ("Failed fetching fetching branches: " ++ ApiError.toString err);
       CoreInfo ("Waiting for branch " ++ branchName l
                   ++ " to be created. Status=undefined");
       Sleep 2900 ], Normal tt).
Proof.
  intros H Hr. unfold body, awaitCatch, onError. rewrite H, Hr. reflexivity.
Qed.

Lemma body_listing_fatal l r err :
  getBranches r (sbRef l) = Rejected err ->
  ApiError.retryable err = false ->
  body l r =
    ([GetBranches (sbRef l)],
     Throw {| message := "Failed fetching fetching branches"; cause := err |}).
Proof.
  intros H Hr. unfold body, awaitCatch, onError. rewrite H, Hr. reflexivity.
Qed.

(** One turn of the loop, by the way the body completes. *)
Lemma loop_step_next fuel l now w k tr :
  guard l now (clock w (S k)) = true ->
  fst (body l (remote w k)) = tr ->
  (snd (body l (remote w k)) = Normal tt \/ snd (body l (remote w k)) = Continue) ->
  loop (S fuel) l now w k =
    ((DateNow (clock w (S k)) :: tr ++ fst (loop fuel l now w (S k)))%list,
     snd (loop fuel l now w (S k))).
Proof.
  intros Hg Htr Hc. cbn [loop]. rewrite Hg.
  destruct (body l (remote w k)) as [tr0 c]. cbn [fst snd] in *. subst tr0.
  destruct (loop fuel l now w (S k)) as [tr' o].
  destruct Hc as [-> | ->]; reflexivity.
Qed.

Lemma loop_step_throw fuel l now w k tr e :
  guard l now (clock w (S k)) = true ->
  body l (remote w k) = (tr, Throw e) ->
  loop (S fuel) l now w k = (DateNow (clock w (S k)) :: tr, RejectedWith e).
Proof. intros Hg Hb. cbn [loop]. rewrite Hg, Hb. reflexivity. Qed.

Lemma loop_step_return fuel l now w k tr :
  guard l now (clock w (S k)) = true ->
  body l (remote w k) = (tr, Return) ->
  loop (S fuel) l now w k = (DateNow (clock w (S k)) :: tr, Fulfilled).
Proof. intros Hg Hb. cbn [loop]. rewrite Hg, Hb. reflexivity. Qed.

Lemma loop_step_timeout fuel l now w k :
  guard l now (clock w (S k)) = false ->
  loop (S fuel) l now w k =
    ([DateNow (clock w (S k)); SetFailed (timeoutMessage l)], Fulfilled).
Proof. intros Hg. cbn [loop]. rewrite Hg. reflexivity. Qed.

(** C3. When the listing call is rejected with status 429 or 500 and above,
    nothing is thrown: apart from one warning the tick is the tick of an
    empty listing, and the loop goes on to the next condition check.  Any
    other rejection makes the body throw at once an error whose cause is the
    rejection itself, and the loop ends rejected with it, no further call
    being made. *)
Theorem listing_failure (l : Locals) (r : Remote) (err : ApiError.t) :
  getBranches r (sbRef l) = Rejected err ->
  ((exists s, ApiError.status err = Some s /\ (s = 429 \/ 500 <= s)) ->
   snd (body l r) = Normal tt
   /\ (forall r0, getBranches r0 (sbRef l) = Resolved [] ->
       filter (fun e => negb (isWarning e)) (fst (body l r)) = fst (body l r0)
       /\ snd (body l r) = snd (body l r0))
   /\ (forall fuel now w k, remote w k = r ->
       guard l now (clock w (S k)) = true ->
       loop (S fuel) l now w k =
         ((DateNow (clock w (S k)) :: fst (body l r)
             ++ fst (loop fuel l now w (S k)))%list,
          snd (loop fuel l now w (S k)))))
  /\ (~ (exists s, ApiError.status err = Some s /\ (s = 429 \/ 500 <= s)) ->
      (exists e, body l r = ([GetBranches (sbRef l)], Throw e) /\ cause e = err)
      /\ (forall fuel now w k, remote w k = r ->
          guard l now (clock w (S k)) = true ->
          exists e, cause e = err /\
            loop (S fuel) l now w k =
              ([DateNow (clock w (S k)); GetBranches (sbRef l)], RejectedWith e))).
Proof.
  intros H. split.
  - intros Hs. apply retryable_spec in Hs.
    pose proof (body_listing_retryable l r err H Hs) as Hb.
    split; [rewrite Hb; reflexivity|]. split.
    + intros r0 H0.
      rewrite (body_not_ready l r0 [] H0 eq_refl), Hb. split; reflexivity.
    + intros fuel now w k <- Hg.
      apply loop_step_next; [exact Hg | reflexivity | left; rewrite Hb; reflexivity].
  - intros Hs. apply retryable_not in Hs.
    pose proof (body_listing_fatal l r err H Hs) as Hb. split.
    + eexists; split; [exact Hb | reflexivity].
    + intros fuel now w k <- Hg. eexists; split; [|apply loop_step_throw; eauto].
      reflexivity.
Qed.

Lemma listing_failure_witness :
  snd (body (sampleLocals true 60)
         (remoteOf (Rejected (serverError 503)) (Resolved None) (Resolved None)))
  = Normal tt.
Proof.
  refine (proj1 (proj1 (listing_failure (sampleLocals true 60)
                          (remoteOf (Rejected (serverError 503))
                             (Resolved None) (Resolved None))
                          (serverError 503) eq_refl) _)).
  exists 503. split; [reflexivity | right; lia].
Defined.

(** ** What the loop body can emit *)

Lemma key_output_not_url name : isUrlKey (name ++ "_key") = false.
Proof.
  unfold isUrlKey. apply orb_false_iff.
  split; apply String.eqb_neq; intros H;
    repeat (destruct name as [|? name]; simpl in H;
            first [discriminate H | injection H as _ H]).
Qed.

Lemma branch_output_not_url key :
  In key branchKeys ->
  isUrlKey key = false /\ isUrlKey (key ++ "branch_status") = false.
Proof.
  unfold branchKeys; simpl.
  intros H; repeat (destruct H as [<- | H]; [split; reflexivity|]).
  contradiction.
Qed.

Lemma detail_output_not_url key : In key branchDetailsKeys -> isUrlKey key = false.
Proof.
  unfold branchDetailsKeys; simpl.
  intros H; repeat (destruct H as [<- | H]; [reflexivity|]).
  contradiction.
Qed.

(** Every property of traces that is kept by concatenation and holds of the
    three kinds of pieces the body emits holds of a whole tick. *)
Section BodyShape.
  Variable P : trace -> Prop.
  Hypothesis P_nil : P [].
  Hypothesis P_app : forall a b, P a -> P b -> P (a ++ b)%list.
  Hypothesis P_plain : forall e, isPlain e = true -> P [e].
  Hypothesis P_pair :
    forall k v, isUrlKey k = false -> P [SetSecret v; SetOutput k v].
  Hypothesis P_url : forall k v, isUrlKey k = true -> P [SetOutput k v].

Lemma shape_pair k v :
  isUrlKey k = false -> P (fst (emit (SetSecret v) ;; emit (SetOutput k v))).
Proof. intros H; exact (P_pair k v H). Qed.

Lemma shape_publishApiKeys keys : P (fst (publishApiKeys keys)).
Proof.
  apply (closed_forOf P P_nil P_app); intros k _.
  apply shape_pair, key_output_not_url.
Qed.

Lemma shape_publishBranch b : P (fst (publishBranch b)).
Proof.
  apply (closed_forOf P P_nil P_app); intros key Hk. cbv zeta.
  destruct (branch_output_not_url key Hk) as [H1 H2].
  destruct (JS.truthy _); [|exact P_nil].
  destruct (JS.strictEqString _ _); apply shape_pair; assumption.
Qed.

Lemma shape_publishBranchDetails d : P (fst (publishBranchDetails d)).
Proof.
  apply (closed_forOf P P_nil P_app); intros key Hk. cbv zeta.
  destruct (JS.truthy _); [|exact P_nil].
  apply shape_pair, detail_output_not_url, Hk.
Qed.

Lemma shape_publishUrls d : P (fst (publishUrls d)).
Proof.
  change (P ([SetOutput "api_url" ("https://" ++ BranchDetails.ref d ++ ".supabase.co/rest/v1")]
             ++ [SetOutput "graphql_url" ("https://" ++ BranchDetails.ref d ++ ".supabase.co/graphql/v1")])%list).
  apply P_app; apply P_url; reflexivity.
Qed.

Lemma shape_call {A} (call : event) (p : promise A) what (fallback : A) :
  isPlain call = true ->
  P (fst (awaitCatch call p (onError what fallback))).
Proof.
  intros Hc. apply (closed_awaitCatch P P_nil P_app).
  - apply P_plain, Hc.
  - intros err. apply (closed_onError P P_nil P_app).
    intros msg; apply P_plain; reflexivity.
Qed.

Lemma shape_fetchAndPublish l r b : P (fst (fetchAndPublish l r b)).
Proof.
  unfold fetchAndPublish.
  apply (closed_bind P P_app); [apply P_plain; reflexivity | intros _].
  apply (closed_bind P P_app); [apply shape_call; reflexivity | intros [d|]].
  2: { apply (closed_bind P P_app); [apply P_plain; reflexivity | intros _; exact P_nil]. }
  apply (closed_bind P P_app); [apply shape_call; reflexivity | intros [keys|]].
  2: { apply (closed_bind P P_app); [apply P_plain; reflexivity | intros _; exact P_nil]. }
  apply (closed_bind P P_app); [apply shape_publishApiKeys | intros _].
  apply (closed_bind P P_app); [apply shape_publishBranch | intros _].
  apply (closed_bind P P_app); [apply shape_publishBranchDetails | intros _].
  apply (closed_bind P P_app); [apply shape_publishUrls | intros _].
  apply (closed_bind P P_app); [apply P_plain; reflexivity | intros _; exact P_nil].
Qed.

Lemma shape_body l r : P (fst (body l r)).
Proof.
  unfold body.
  apply (closed_bind P P_app); [apply shape_call; reflexivity | intros branches].
  cbv zeta.
  destruct (if ready _ _ then _ else _) as [found|].
  - apply shape_fetchAndPublish.
  - unfold waitStep.
    apply (closed_bind P P_app); apply P_plain || intros _; try reflexivity.
    apply P_plain; reflexivity.
Qed.
End BodyShape.

Lemma body_noClock l r : noClock (fst (body l r)).
Proof.
  apply shape_body; unfold noClock.
  - constructor.
  - intros a b Ha Hb. apply Forall_app; auto.
  - intros e He. constructor; [|constructor]. destruct e; try discriminate; reflexivity.
  - intros k v _. repeat constructor.
  - intros k v _. repeat constructor.
Qed.

(** ** The time limit (lines 54, 55 and 176) *)

Lemma lt_false_of_ge x y : JS.ge x y = true -> JS.lt x y = false.
Proof.
  destruct x, y; simpl; try discriminate; try reflexivity.
  unfold JS.Qltb. intros ->. reflexivity.
Qed.

Lemma guard_false_of_elapsed l now t :
  JS.ge (JS.ofZ (t - now)) (JS.mul (timeout l) (JS.ofZ 1000)) = true ->
  guard l now t = false.
Proof. apply lt_false_of_ge. Qed.

(** A clock reading found in [a ++ b] lies in [b] when [a] has none. *)
Lemma clock_after_prefix (a b p q : trace) (t : Z) :
  noClock a -> (a ++ b = p ++ DateNow t :: q)%list ->
  exists p', p = (a ++ p')%list /\ b = (p' ++ DateNow t :: q)%list.
Proof.
  intros Ha. revert p. induction Ha as [|e a He Ha IH]; intros p H.
  - exists p; auto.
  - destruct p as [|e' p]; simpl in H; injection H as -> H.
    + discriminate He.
    + destruct (IH p H) as (p' & -> & ->). exists p'; auto.
Qed.

Lemma noClock_no_reading (a p q : trace) (t : Z) :
  noClock a -> a <> (p ++ DateNow t :: q)%list.
Proof.
  intros Ha H. rewrite <- (app_nil_r a) in H.
  destruct (clock_after_prefix a [] p q t Ha H) as (p' & _ & Hnil).
  destruct p'; discriminate Hnil.
Qed.

Lemma timeoutMessage_mentions l :
  mentions (timeoutMessage l) (branchName l) /\ mentions (timeoutMessage l) "Timeout".
Proof.
  split.
  - exists "Timeout waiting for branch ", " to be created". reflexivity.
  - exists "", (" waiting for branch " ++ branchName l ++ " to be created").
    reflexivity.
Qed.

(** After a clock reading at or beyond the time limit the loop only reports
    the failure. *)
Lemma loop_after_deadline (fuel : nat) (l : Locals) (now : Z) (w : World)
    (k : nat) (pre post : trace) (t : Z) :
  fst (loop fuel l now w k) = (pre ++ DateNow t :: post)%list ->
  JS.ge (JS.ofZ (t - now)) (JS.mul (timeout l) (JS.ofZ 1000)) = true ->
  post = [SetFailed (timeoutMessage l)]
  /\ remoteCalls post = []
  /\ snd (loop fuel l now w k) = Fulfilled.
Proof.
  intros Htr Hge.
  assert (post = [SetFailed (timeoutMessage l)] /\ snd (loop fuel l now w k) = Fulfilled)
    as [-> Ho].
  { revert k pre Htr. induction fuel as [|fuel IH]; intros k pre Htr.
    - destruct pre; discriminate Htr.
    - destruct (guard l now (clock w (S k))) eqn:Hg.
      + pose proof (body_noClock l (remote w k)) as Hnc.
        assert (Hhead : pre <> []).
        { intros ->. cbn [loop] in Htr. rewrite Hg in Htr.
          destruct (body l (remote w k)) as [tr [[]| | |e]];
            try destruct (loop fuel l now w (S k));
            simpl in Htr; injection Htr as Ht _; rewrite <- Ht in Hge;
            apply guard_false_of_elapsed in Hge; congruence. }
        destruct pre as [|e0 pre]; [contradiction|].
        destruct (body l (remote w k)) as [tr c] eqn:Hb. cbn [fst] in Hnc.
        destruct c as [[]| | |e].
        * rewrite (loop_step_next fuel l now w k tr Hg) in *
            by (rewrite Hb; auto).
          cbn [fst snd] in *. simpl in Htr. injection Htr as _ Htr.
          destruct (clock_after_prefix _ _ _ _ _ Hnc Htr) as (p' & _ & Hrest).
          exact (IH (S k) p' Hrest).
        * rewrite (loop_step_next fuel l now w k tr Hg) in *
            by (rewrite Hb; auto).
          cbn [fst snd] in *. simpl in Htr. injection Htr as _ Htr.
          destruct (clock_after_prefix _ _ _ _ _ Hnc Htr) as (p' & _ & Hrest).
          exact (IH (S k) p' Hrest).
        * rewrite (loop_step_return fuel l now w k tr Hg Hb) in *.
          simpl in Htr. injection Htr as _ Htr.
          exfalso. exact (noClock_no_reading _ _ _ _ Hnc Htr).
        * rewrite (loop_step_throw fuel l now w k tr e Hg Hb) in *.
          simpl in Htr. injection Htr as _ Htr.
          exfalso. exact (noClock_no_reading _ _ _ _ Hnc Htr).
      + rewrite (loop_step_timeout fuel l now w k Hg) in *.
        cbn [fst snd] in *. split; [|reflexivity].
        destruct pre as [|e0 [|e1 [|e2 pre]]]; simpl in Htr; try discriminate Htr.
        injection Htr as _ <-. reflexivity. }
  split; [reflexivity|]. split; [reflexivity | exact Ho].
Qed.

(** ** The fetch-and-publish phase (lines 75 to 167) *)

Lemma bind_call_resolved {A B} (call : event) (v : A) handler (k : A -> M B) :
  bind (awaitCatch call (Resolved v) handler) k = (call :: fst (k v), snd (k v)).
Proof. unfold awaitCatch, bind, emit, ret. destruct (k v); reflexivity. Qed.

Lemma bind_call_retryable {A B} (call : event) err what (fallback : A) (k : A -> M B) :
  ApiError.retryable err = true ->
  bind (awaitCatch call (Rejected err) (onError what fallback)) k =
    (call :: CoreWarning (what ++ ": " ++ ApiError.toString err) :: fst (k fallback),
     snd (k fallback)).
Proof.
  intros H. unfold awaitCatch, onError. rewrite H.
  unfold bind, emit, ret. destruct (k fallback); reflexivity.
Qed.

Lemma bind_call_fatal {A B} (call : event) err what (fallback : A) (k : A -> M B) :
  ApiError.retryable err = false ->
  bind (awaitCatch call (Rejected err) (onError what fallback)) k =
    ([call], Throw {| message := what; cause := err |}).
Proof. intros H. unfold awaitCatch, onError. rewrite H. reflexivity. Qed.

Lemma fetch_details_empty l r b :
  getBranchDetails r (Branch.id b) = Resolved None ->
  fetchAndPublish l r b =
    ([ foundNotice l b; GetBranchDetails (Branch.id b);
       CoreWarning "Branch details not found" ], Continue).
Proof.
  intros H. unfold fetchAndPublish. rewrite H, bind_emit, bind_call_resolved.
  reflexivity.
Qed.

Lemma fetch_details_retryable l r b err :
  getBranchDetails r (Branch.id b) = Rejected err ->
  ApiError.retryable err = true ->
  fetchAndPublish l r b =
    ([ foundNotice l b; GetBranchDetails (Branch.id b);
       CoreWarning ("Error fetching branch details: " ++ ApiError.toString err);
       CoreWarning "Branch details not found" ], Continue).
Proof.
  intros H Hr. unfold fetchAndPublish.
  rewrite H, bind_emit, bind_call_retryable by exact Hr. reflexivity.
Qed.

Lemma fetch_details_fatal l r b err :
  getBranchDetails r (Branch.id b) = Rejected err ->
  ApiError.retryable err = false ->
  fetchAndPublish l r b =
    ([ foundNotice l b; GetBranchDetails (Branch.id b) ],
     Throw {| message := "Error fetching branch details"; cause := err |}).
Proof.
  intros H Hr. unfold fetchAndPublish.
  rewrite H, bind_emit, bind_call_fatal by exact Hr. reflexivity.
Qed.

Lemma fetch_keys_empty l r b d :
  getBranchDetails r (Branch.id b) = Resolved (Some d) ->
  getProjectApiKeys r (Branch.project_ref b) = Resolved None ->
  fetchAndPublish l r b =
    ([ foundNotice l b; GetBranchDetails (Branch.id b);
       GetProjectApiKeys (Branch.project_ref b);
       CoreWarning "Api keys not found" ], Continue).
Proof.
  intros Hd Hk. unfold fetchAndPublish.
  rewrite Hd, Hk, bind_emit, bind_call_resolved. cbn [fst snd].
  rewrite bind_call_resolved. reflexivity.
Qed.

Lemma fetch_keys_retryable l r b d err :
  getBranchDetails r (Branch.id b) = Resolved (Some d) ->
  getProjectApiKeys r (Branch.project_ref b) = Rejected err ->
  ApiError.retryable err = true ->
  fetchAndPublish l r b =
    ([ foundNotice l b; GetBranchDetails (Branch.id b);
       GetProjectApiKeys (Branch.project_ref b);
       CoreWarning ("Error fetching api keys: " ++ ApiError.toString err);
       CoreWarning "Api keys not found" ], Continue).
Proof.
  intros Hd Hk Hr. unfold fetchAndPublish.
  rewrite Hd, Hk, bind_emit, bind_call_resolved. cbn [fst snd].
  rewrite bind_call_retryable by exact Hr. reflexivity.
Qed.

Lemma fetch_keys_fatal l r b d err :
  getBranchDetails r (Branch.id b) = Resolved (Some d) ->
  getProjectApiKeys r (Branch.project_ref b) = Rejected err ->
  ApiError.retryable err = false ->
  fetchAndPublish l r b =
    ([ foundNotice l b; GetBranchDetails (Branch.id b);
       GetProjectApiKeys (Branch.project_ref b) ],
     Throw {| message := "Error fetching api keys"; cause := err |}).
Proof.
  intros Hd Hk Hr. unfold fetchAndPublish.
  rewrite Hd, Hk, bind_emit, bind_call_resolved. cbn [fst snd].
  rewrite bind_call_fatal by exact Hr. reflexivity.
Qed.

(** With both fetches answered, the phase publishes everything and
    returns. *)
Lemma fetch_success l r b d keys :
  getBranchDetails r (Branch.id b) = Resolved (Some d) ->
  getProjectApiKeys r (Branch.project_ref b) = Resolved (Some keys) ->
  fetchAndPublish l r b =
    ((foundNotice l b :: GetBranchDetails (Branch.id b)
        :: GetProjectApiKeys (Branch.project_ref b)
        :: fst (publishApiKeys keys) ++ fst (publishBranch b)
        ++ fst (publishBranchDetails d)
        ++ fst (publishUrls d) ++ [CoreInfo "success"])%list, Return).
Proof.
  intros Hd Hk. unfold fetchAndPublish.
  rewrite Hd, Hk, bind_emit, bind_call_resolved. cbn [fst snd].
  rewrite bind_call_resolved. cbn [fst snd].
  rewrite (bind_normal _ _ tt (publishApiKeys_normal keys)). cbn [fst snd].
  rewrite (bind_normal _ _ tt (publishBranch_normal b)). cbn [fst snd].
  rewrite (bind_normal _ _ tt (publishBranchDetails_normal d)). cbn [fst snd].
  reflexivity.
Qed.

Lemma fetch_success_outputs l r b d keys :
  getBranchDetails r (Branch.id b) = Resolved (Some d) ->
  getProjectApiKeys r (Branch.project_ref b) = Resolved (Some keys) ->
  outputs (fst (fetchAndPublish l r b)) = fullOutputs b d keys.
Proof.
  intros Hd Hk. rewrite (fetch_success l r b d keys Hd Hk).
  cbn [fst outputs foundNotice]. rewrite !outputs_app.
  rewrite publishApiKeys_outputs, publishBranch_outputs, publishBranchDetails_outputs.
  reflexivity.
Qed.

Lemma fetch_all_or_nothing l r b :
  (outputs (fst (fetchAndPublish l r b)) = []
   /\ snd (fetchAndPublish l r b) <> Return)
  \/ (exists d keys,
        getBranchDetails r (Branch.id b) = Resolved (Some d)
        /\ getProjectApiKeys r (Branch.project_ref b) = Resolved (Some keys)
        /\ snd (fetchAndPublish l r b) = Return
        /\ outputs (fst (fetchAndPublish l r b)) = fullOutputs b d keys).
Proof.
  destruct (getBranchDetails r (Branch.id b)) as [[d|] | err] eqn:Hd.
  - destruct (getProjectApiKeys r (Branch.project_ref b)) as [[keys|] | err] eqn:Hk.
    + right. exists d, keys. repeat split.
      * rewrite (fetch_success l r b d keys Hd Hk). reflexivity.
      * apply fetch_success_outputs; assumption.
    + left. rewrite (fetch_keys_empty l r b d Hd Hk). split; [reflexivity | discriminate].
    + left. destruct (ApiError.retryable err) eqn:Hr.
      * rewrite (fetch_keys_retryable l r b d err Hd Hk Hr).
        split; [reflexivity | discriminate].
      * rewrite (fetch_keys_fatal l r b d err Hd Hk Hr).
        split; [reflexivity | discriminate].
  - left. rewrite (fetch_details_empty l r b Hd). split; [reflexivity | discriminate].
  - left. destruct (ApiError.retryable err) eqn:Hr.
    + rewrite (fetch_details_retryable l r b err Hd Hr).
      split; [reflexivity | discriminate].
    + rewrite (fetch_details_fatal l r b err Hd Hr).
      split; [reflexivity | discriminate].
Qed.

Lemma body_all_or_nothing l r :
  (outputs (fst (body l r)) = [] /\ snd (body l r) <> Return)
  \/ (exists branches b d keys,
        getBranches r (sbRef l) = Resolved branches
        /\ findBranch (branchName l) branches = Some b
        /\ getBranchDetails r (Branch.id b) = Resolved (Some d)
        /\ getProjectApiKeys r (Branch.project_ref b) = Resolved (Some keys)
        /\ snd (body l r) = Return
        /\ outputs (fst (body l r)) = fullOutputs b d keys).
Proof.
  destruct (getBranches r (sbRef l)) as [branches | err] eqn:Hb.
  - destruct (ready (waitForMigrations l) (findBranch (branchName l) branches)) eqn:Hr.
    + destruct (findBranch (branchName l) branches) as [b|] eqn:Hf; [|discriminate Hr].
      rewrite (body_ready l r branches b Hb Hf Hr). cbn [fst snd outputs].
      destruct (fetch_all_or_nothing l r b) as [H | (d & keys & Hd & Hk & Hs & Ho)].
      * left; exact H.
      * right. exists branches, b, d, keys. auto 10.
    + left. rewrite (body_not_ready l r branches Hb Hr).
      split; [reflexivity | discriminate].
  - left. destruct (ApiError.retryable err) eqn:Hr.
    + rewrite (body_listing_retryable l r err Hb Hr). split; [reflexivity | discriminate].
    + rewrite (body_listing_fatal l r err Hb Hr). split; [reflexivity | discriminate].
Qed.

(** C7. Publishing is all or nothing within a tick: either the tick sets no
    output at all and does not end the run, or both fetches were answered
    and the tick sets the whole output set (one [<name>_key] per credential,
    the summary outputs, the detail outputs, [api_url] and [graphql_url])
    and returns.  In particular a tick whose detail fetch or credential
    fetch is not answered with a value sets no output. *)
Theorem publish_all_or_nothing (l : Locals) (r : Remote) :
  ((outputs (fst (body l r)) = [] /\ snd (body l r) <> Return)
   \/ (exists branches b d keys,
         getBranches r (sbRef l) = Resolved branches
         /\ findBranch (branchName l) branches = Some b
         /\ getBranchDetails r (Branch.id b) = Resolved (Some d)
         /\ getProjectApiKeys r (Branch.project_ref b) = Resolved (Some keys)
         /\ snd (body l r) = Return
         /\ outputs (fst (body l r)) = fullOutputs b d keys))
  /\ (forall branches b,
        getBranches r (sbRef l) = Resolved branches ->
        findBranch (branchName l) branches = Some b ->
        ((forall d, getBranchDetails r (Branch.id b) <> Resolved (Some d))
         \/ (forall keys,
               getProjectApiKeys r (Branch.project_ref b) <> Resolved (Some keys))) ->
        outputs (fst (body l r)) = []).
Proof.
  split; [apply body_all_or_nothing|].
  intros branches b Hb Hf Hfail.
  destruct (body_all_or_nothing l r)
    as [[H _] | (branches' & b' & d & keys & Hb' & Hf' & Hd & Hk & _)];
    [exact H|].
  rewrite Hb in Hb'. injection Hb' as <-.
  rewrite Hf in Hf'. injection Hf' as <-.
  destruct Hfail as [Hfail | Hfail]; [destruct (Hfail d Hd) | destruct (Hfail keys Hk)].
Qed.

(** ** Skipped ticks (lines 90 to 93 and 109 to 112) *)

(** C8 as amended. On a ready tick whose detail fetch was answered, a
    credential fetch that is rejected with status 429 or 500 and above, or
    that resolves to no value, ends the iteration: nothing is set, the body
    completes by [continue] exactly as for an absent detail result, and the
    loop goes on to its next condition check. *)
Theorem credential_fetch_skipped (l : Locals) (r : Remote)
    (branches : list Branch.t) (b : Branch.t) (d : BranchDetails.t) :
  getBranches r (sbRef l) = Resolved branches ->
  findBranch (branchName l) branches = Some b ->
  ready (waitForMigrations l) (Some b) = true ->
  getBranchDetails r (Branch.id b) = Resolved (Some d) ->
  (getProjectApiKeys r (Branch.project_ref b) = Resolved None
   \/ exists err s,
        getProjectApiKeys r (Branch.project_ref b) = Rejected err
        /\ ApiError.status err = Some s /\ (s = 429 \/ 500 <= s)) ->
  outputs (fst (body l r)) = []
  /\ snd (body l r) = Continue
  /\ (forall r0,
        getBranches r0 (sbRef l) = Resolved branches ->
        getBranchDetails r0 (Branch.id b) = Resolved None ->
        outputs (fst (body l r0)) = [] /\ snd (body l r0) = snd (body l r))
  /\ (forall fuel now w k, remote w k = r ->
        guard l now (clock w (S k)) = true ->
        loop (S fuel) l now w k =
          ((DateNow (clock w (S k)) :: fst (body l r)
              ++ fst (loop fuel l now w (S k)))%list,
           snd (loop fuel l now w (S k)))).
Proof.
  intros Hb Hf Hr Hd Hk.
  assert (Hbody : outputs (fst (body l r)) = [] /\ snd (body l r) = Continue).
  { rewrite (body_ready l r branches b Hb Hf Hr). cbn [fst snd outputs].
    destruct Hk as [Hk | (err & s & Hk & Hs)].
    - rewrite (fetch_keys_empty l r b d Hd Hk). split; reflexivity.
    - assert (Hret : ApiError.retryable err = true)
        by (apply retryable_spec; eauto).
      rewrite (fetch_keys_retryable l r b d err Hd Hk Hret). split; reflexivity. }
  destruct Hbody as [Ho Hc]. repeat split; try assumption.
  - rewrite (body_ready l r0 branches b H Hf Hr). cbn [fst snd outputs].
    rewrite (fetch_details_empty l r0 b H0). reflexivity.
  - rewrite Hc, (body_ready l r0 branches b H Hf Hr). cbn [fst snd outputs].
    rewrite (fetch_details_empty l r0 b H0). reflexivity.
  - intros fuel now w k <- Hg.
    apply loop_step_next; [exact Hg | reflexivity | right; exact Hc].
Qed.

Lemma credential_fetch_skipped_witness :
  snd (body (sampleLocals false 60)
         (remoteOf (Resolved [sampleBranch "feat-x" "CREATING_PROJECT"])
            (Resolved (Some sampleDetails)) (Rejected (serverError 429))))
  = Continue.
Proof.
  refine (proj1 (proj2
    (credential_fetch_skipped (sampleLocals false 60)
       (remoteOf (Resolved [sampleBranch "feat-x" "CREATING_PROJECT"])
          (Resolved (Some sampleDetails)) (Rejected (serverError 429)))
       [sampleBranch "feat-x" "CREATING_PROJECT"]
       (sampleBranch "feat-x" "CREATING_PROJECT") sampleDetails
       eq_refl eq_refl eq_refl eq_refl _))).
  right. exists (serverError 429), 429.
  split; [reflexivity|]. split; [reflexivity | left; reflexivity].
Defined.

(** The claim C8 fails as stated: a credential fetch answered with an empty
    list of entries does not end the iteration; the tick publishes the
    summary, detail and URL outputs and returns. *)
Lemma empty_key_list_is_published :
  getProjectApiKeys
    (remoteOf (Resolved [sampleBranch "feat-x" "CREATING_PROJECT"])
       (Resolved (Some sampleDetails)) (Resolved (Some [])))
    "childref" = Resolved (Some [])
  /\ snd (body (sampleLocals false 60)
            (remoteOf (Resolved [sampleBranch "feat-x" "CREATING_PROJECT"])
               (Resolved (Some sampleDetails)) (Resolved (Some []))))
     = Return
  /\ outputs (fst (body (sampleLocals false 60)
                     (remoteOf (Resolved [sampleBranch "feat-x" "CREATING_PROJECT"])
                        (Resolved (Some sampleDetails)) (Resolved (Some [])))))
     <> [].
Proof. repeat split. vm_compute. discriminate. Qed.

(** A tick that completes normally ends on the fixed sleep; a tick that
    completes by [continue] has no sleep at all. *)
Lemma body_normal_sleeps l r :
  snd (body l r) = Normal tt -> lastEvent (fst (body l r)) = Some (Sleep 2900).
Proof.
  intros Hn.
  destruct (getBranches r (sbRef l)) as [branches | err] eqn:Hb.
  - destruct (ready (waitForMigrations l) (findBranch (branchName l) branches)) eqn:Hr.
    + destruct (findBranch (branchName l) branches) as [b|] eqn:Hf; [|discriminate Hr].
      rewrite (body_ready l r branches b Hb Hf Hr) in Hn. cbn [snd] in Hn.
      exfalso. revert Hn.
      destruct (getBranchDetails r (Branch.id b)) as [[d|] | e] eqn:Hd.
      * destruct (getProjectApiKeys r (Branch.project_ref b)) as [[keys|] | e] eqn:Hk.
        -- rewrite (fetch_success l r b d keys Hd Hk). discriminate.
        -- rewrite (fetch_keys_empty l r b d Hd Hk). discriminate.
        -- destruct (ApiError.retryable e) eqn:He.
           ++ rewrite (fetch_keys_retryable l r b d e Hd Hk He). discriminate.
           ++ rewrite (fetch_keys_fatal l r b d e Hd Hk He). discriminate.
      * rewrite (fetch_details_empty l r b Hd). discriminate.
      * destruct (ApiError.retryable e) eqn:He.
        -- rewrite (fetch_details_retryable l r b e Hd He). discriminate.
        -- rewrite (fetch_details_fatal l r b e Hd He). discriminate.
    + rewrite (body_not_ready l r branches Hb Hr). reflexivity.
  - destruct (ApiError.retryable err) eqn:Hr.
    + rewrite (body_listing_retryable l r err Hb Hr). reflexivity.
    + rewrite (body_listing_fatal l r err Hb Hr) in Hn. discriminate Hn.
Qed.

Lemma body_continue_no_sleep l r :
  snd (body l r) = Continue -> filter isSleep (fst (body l r)) = [].
Proof.
  intros Hc.
  destruct (getBranches r (sbRef l)) as [branches | err] eqn:Hb.
  - destruct (ready (waitForMigrations l) (findBranch (branchName l) branches)) eqn:Hr.
    + destruct (findBranch (branchName l) branches) as [b|] eqn:Hf; [|discriminate Hr].
      rewrite (body_ready l r branches b Hb Hf Hr) in *. cbn [fst snd] in *.
      revert Hc.
      destruct (getBranchDetails r (Branch.id b)) as [[d|] | e] eqn:Hd.
      * destruct (getProjectApiKeys r (Branch.project_ref b)) as [[keys|] | e] eqn:Hk.
        -- rewrite (fetch_success l r b d keys Hd Hk). discriminate.
        -- rewrite (fetch_keys_empty l r b d Hd Hk). reflexivity.
        -- destruct (ApiError.retryable e) eqn:He.
           ++ rewrite (fetch_keys_retryable l r b d e Hd Hk He). reflexivity.
           ++ rewrite (fetch_keys_fatal l r b d e Hd Hk He). discriminate.
      * rewrite (fetch_details_empty l r b Hd). reflexivity.
      * destruct (ApiError.retryable e) eqn:He.
        -- rewrite (fetch_details_retryable l r b e Hd He). reflexivity.
        -- rewrite (fetch_details_fatal l r b e Hd He). discriminate.
    + rewrite (body_not_ready l r branches Hb Hr) in Hc. discriminate Hc.
  - destruct (ApiError.retryable err) eqn:Hr.
    + rewrite (body_listing_retryable l r err Hb Hr) in Hc. discriminate Hc.
    + rewrite (body_listing_fatal l r err Hb Hr) in Hc. discriminate Hc.
Qed.

(** C4, evaluated where the code departs from it. On a ready tick whose
    detail fetch is rejected with status 500 the body emits two warnings and
    completes by [continue]: the tick has neither the waiting notice nor the
    sleep, and the next condition check and listing call follow at once. *)
Theorem skipped_fetch_does_not_sleep :
  body (sampleLocals false 60)
    (remoteOf (Resolved [sampleBranch "feat-x" "CREATING_PROJECT"])
       (Rejected (serverError 500)) (Resolved (Some sampleKeys)))
  = ([ GetBranches "parentref";
       CoreInfo "Branch feat-x found, status: CREATING_PROJECT";
       GetBranchDetails "b-1";
       CoreWarning "Error fetching branch details: ApiError: Internal Server Error";
       CoreWarning "Branch details not found" ], Continue)
  /\ filter isSleep
       (fst (body (sampleLocals false 60)
               (remoteOf (Resolved [sampleBranch "feat-x" "CREATING_PROJECT"])
                  (Rejected (serverError 500)) (Resolved (Some sampleKeys)))))
     = []
  /\ loop 2 (sampleLocals false 60) 1000000
       (steadyWorld 1
          (remoteOf (Resolved [sampleBranch "feat-x" "CREATING_PROJECT"])
             (Rejected (serverError 500)) (Resolved (Some sampleKeys)))) 0
     = ([ DateNow 1000001; GetBranches "parentref";
          CoreInfo "Branch feat-x found, status: CREATING_PROJECT";
          GetBranchDetails "b-1";
          CoreWarning "Error fetching branch details: ApiError: Internal Server Error";
          CoreWarning "Branch details not found";
          DateNow 1000002; GetBranches "parentref";
          CoreInfo "Branch feat-x found, status: CREATING_PROJECT";
          GetBranchDetails "b-1";
          CoreWarning "Error fetching branch details: ApiError: Internal Server Error";
          CoreWarning "Branch details not found" ], Pending).
Proof. repeat split; vm_compute; reflexivity. Qed.

(** ** How the loop ends (lines 55, 167 and 176) *)

Lemma lastEvent_last (a : trace) (e : event) : lastEvent (a ++ [e])%list = Some e.
Proof.
  induction a as [|x a IH]; [reflexivity|].
  simpl. destruct (a ++ [e])%list eqn:E; [destruct a; discriminate E | exact IH].
Qed.

Lemma lastEvent_app (a b : trace) : b <> [] -> lastEvent (a ++ b)%list = lastEvent b.
Proof.
  intros Hb. induction a as [|x a IH]; [reflexivity|].
  simpl. destruct (a ++ b)%list eqn:E; [|exact IH].
  destruct a; [simpl in E; contradiction | discriminate E].
Qed.

(** A tick that returns has just logged its success. *)
Lemma body_return_last l r :
  snd (body l r) = Return -> lastEvent (fst (body l r)) = Some (CoreInfo "success").
Proof.
  intros Hret.
  destruct (getBranches r (sbRef l)) as [branches | err] eqn:Hb.
  - destruct (ready (waitForMigrations l) (findBranch (branchName l) branches)) eqn:Hr.
    + destruct (findBranch (branchName l) branches) as [b|] eqn:Hf; [|discriminate Hr].
      rewrite (body_ready l r branches b Hb Hf Hr) in *. cbn [fst snd] in *.
      destruct (fetch_all_or_nothing l r b) as [[_ H] | (d & keys & Hd & Hk & _)];
        [contradiction|].
      rewrite (fetch_success l r b d keys Hd Hk). cbn [fst].
      rewrite !app_comm_cons, !app_assoc.
      apply lastEvent_last.
    + rewrite (body_not_ready l r branches Hb Hr) in Hret. discriminate Hret.
  - destruct (ApiError.retryable err) eqn:Hr.
    + rewrite (body_listing_retryable l r err Hb Hr) in Hret. discriminate Hret.
    + rewrite (body_listing_fatal l r err Hb Hr) in Hret. discriminate Hret.
Qed.

Lemma loop_nonempty fuel l now w k :
  snd (loop fuel l now w k) = Fulfilled -> fst (loop fuel l now w k) <> [].
Proof.
  destruct fuel as [|fuel]; [discriminate|]. intros _. cbn [loop].
  destruct (guard l now (clock w (S k))); [|discriminate].
  destruct (body l (remote w k)) as [tr [[]| | |e]];
    try destruct (loop fuel l now w (S k)); discriminate.
Qed.

(** A fulfilled loop ended either by the success of a tick or by reporting
    the timeout. *)
Lemma loop_fulfilled_last fuel l now w k :
  snd (loop fuel l now w k) = Fulfilled ->
  lastEvent (fst (loop fuel l now w k)) = Some (CoreInfo "success")
  \/ lastEvent (fst (loop fuel l now w k)) = Some (SetFailed (timeoutMessage l)).
Proof.
  revert k. induction fuel as [|fuel IH]; intros k; [discriminate|].
  destruct (guard l now (clock w (S k))) eqn:Hg.
  - destruct (body l (remote w k)) as [tr c] eqn:Hb.
    pose proof (body_return_last l (remote w k)) as Hlast. rewrite Hb in Hlast.
    cbn [fst snd] in Hlast.
    assert (Hnext : c = Normal tt \/ c = Continue ->
              snd (loop (S fuel) l now w k) = Fulfilled ->
              lastEvent (fst (loop (S fuel) l now w k)) = Some (CoreInfo "success")
              \/ lastEvent (fst (loop (S fuel) l now w k))
                 = Some (SetFailed (timeoutMessage l))).
    { intros Hc. rewrite (loop_step_next fuel l now w k tr Hg)
        by (rewrite Hb; auto). cbn [fst snd]. intros Ho.
      rewrite app_comm_cons, lastEvent_app by (apply loop_nonempty, Ho).
      apply IH, Ho. }
    destruct c as [[]| | |e]; auto.
    + rewrite (loop_step_return fuel l now w k tr Hg Hb). intros _. left.
      cbn [fst]. specialize (Hlast eq_refl).
      destruct tr as [|x tr]; [discriminate Hlast | exact Hlast].
    + rewrite (loop_step_throw fuel l now w k tr e Hg Hb). discriminate.
  - rewrite (loop_step_timeout fuel l now w k Hg). intros _. right. reflexivity.
Qed.

(** C2. In every run of the wait loop, a clock reading whose elapsed time
    since the loop start is at or beyond [timeout * 1000] milliseconds is
    followed by nothing but the failure report: no tick is begun, no remote
    call is made, and the promise is fulfilled.  A loop that is fulfilled
    without the success of a tick has reported, as its last act, the failure
    whose message names the branch and mentions the timeout. *)
Theorem loop_stops_at_timeout (fuel : nat) (l : Locals) (now : Z) (w : World) (k : nat) :
  (forall (pre post : trace) (t : Z),
      fst (loop fuel l now w k) = (pre ++ DateNow t :: post)%list ->
      JS.ge (JS.ofZ (t - now)) (JS.mul (timeout l) (JS.ofZ 1000)) = true ->
      post = [SetFailed (timeoutMessage l)]
      /\ remoteCalls post = []
      /\ snd (loop fuel l now w k) = Fulfilled)
  /\ (snd (loop fuel l now w k) = Fulfilled ->
      lastEvent (fst (loop fuel l now w k)) = Some (CoreInfo "success")
      \/ lastEvent (fst (loop fuel l now w k)) = Some (SetFailed (timeoutMessage l)))
  /\ mentions (timeoutMessage l) (branchName l)
  /\ mentions (timeoutMessage l) "Timeout".
Proof.
  split; [|split].
  - intros pre post t. apply loop_after_deadline.
  - apply loop_fulfilled_last.
  - apply timeoutMessage_mentions.
Qed.

Lemma loop_stops_at_timeout_witness :
  snd (loop 5 (sampleLocals true 5) 1000000
         (steadyWorld 2900
            (remoteOf (Resolved [sampleBranch "feat-x" "CREATING_PROJECT"])
               (Resolved (Some sampleDetails)) (Resolved (Some sampleKeys)))) 0)
  = Fulfilled.
Proof.
  refine (proj2 (proj2
    (proj1 (loop_stops_at_timeout 5 (sampleLocals true 5) 1000000
       (steadyWorld 2900
          (remoteOf (Resolved [sampleBranch "feat-x" "CREATING_PROJECT"])
             (Resolved (Some sampleDetails)) (Resolved (Some sampleKeys)))) 0%nat)
       [ DateNow 1002900; GetBranches "parentref";
         CoreInfo "Waiting for branch feat-x to be created. Status=CREATING_PROJECT";
         Sleep 2900 ]
       [ SetFailed "Timeout waiting for branch feat-x to be created" ]
       1005800 _ _))).
  - vm_compute. reflexivity.
  - vm_compute. reflexivity.
Defined.

(** With a finite timeout and a clock that advances at every reading, the
    loop ends: given enough iterations its promise is settled. *)
Lemma clock_progress w :
  (forall n, clock w n < clock w (S n)) ->
  forall n, clock w O + Z.of_nat n <= clock w n.
Proof.
  intros H n. induction n as [|n IH]; [lia|].
  specialize (H n). lia.
Qed.

(** A rounded positive rational is not negative, and may overflow. *)
Lemma pow2_nonneg (e : Z) : (0 <= JS.pow2 e)%Q.
Proof.
  unfold JS.pow2. destruct (e <? 0)%Z.
  - unfold Qle; simpl. lia.
  - change 0%Q with (inject_Z 0). rewrite <- Zle_Qle. apply Z.pow_nonneg. lia.
Qed.

Lemma roundPos_cases (n d : positive) :
  JS.roundPos n d = JS.Infinity
  \/ exists r, JS.roundPos n d = JS.Finite r /\ (0 <= r)%Q.
Proof.
  unfold JS.roundPos.
  generalize (Z.log2 (Z.pos n) - Z.log2 (Z.pos d)). intros k. cbv zeta.
  generalize (if if (k <? 0)%Z then (Z.pos d <=? Z.pos n * 2 ^ (- k))%Z
                 else (Z.pos d * 2 ^ k <=? Z.pos n)%Z
              then k else k - 1). intros fl.
  set (e := Z.max (fl - 52) (-1074)).
  set (N := if (e <? 0)%Z then Z.pos n * 2 ^ (- e) else Z.pos n).
  set (D := if (e <? 0)%Z then Z.pos d else Z.pos d * 2 ^ e).
  assert (HN : 0 <= N).
  { subst N. destruct (e <? 0)%Z; [|lia].
    apply Z.mul_nonneg_nonneg; [lia | apply Z.pow_nonneg; lia]. }
  assert (HD : 0 < D).
  { subst D. destruct (Z.ltb_spec e 0) as [He | He]; [lia|].
    apply Z.mul_pos_pos; [lia | apply Z.pow_pos_nonneg; lia]. }
  assert (Hm : 0 <= N / D) by (apply Z.div_pos; assumption).
  set (m' := if (2 * (N mod D) <? D)%Z then N / D
             else if (D <? 2 * (N mod D))%Z then N / D + 1
                  else if Z.even (N / D) then N / D else N / D + 1).
  assert (Hm' : 0 <= m').
  { subst m'. destruct (2 * (N mod D) <? D)%Z; [exact Hm|].
    destruct (D <? 2 * (N mod D))%Z; [lia|]. destruct (Z.even (N / D)); lia. }
  destruct ((971 <? e)%Z || (e =? 971)%Z && (m' =? 2 ^ 53)%Z); [left; reflexivity|].
  right. eexists. split; [reflexivity|].
  apply Qmult_le_0_compat; [|apply pow2_nonneg].
  change 0%Q with (inject_Z 0). rewrite <- Zle_Qle. exact Hm'.
Qed.

Lemma roundDouble_nonpos (x : Q) :
  (x <= 0)%Q ->
  JS.roundDouble x = JS.NegInfinity
  \/ exists r, JS.roundDouble x = JS.Finite r /\ (r <= 0)%Q.
Proof.
  intros Hx. destruct x as [xn xd]. unfold JS.roundDouble. cbn [Qnum Qden].
  destruct xn as [|n|n].
  - right. exists 0%Q. split; [reflexivity | discriminate].
  - exfalso. unfold Qle in Hx; simpl in Hx. lia.
  - destruct (roundPos_cases n xd) as [-> | (r & -> & Hr)]; [left; reflexivity|].
    right. exists (- r)%Q. split; [reflexivity|].
    apply Qopp_le_compat in Hr. exact Hr.
Qed.

(** The product of two finite numbers is never [NaN]. *)
Lemma roundDouble_cases (x : Q) :
  JS.roundDouble x = JS.NegInfinity \/ JS.roundDouble x = JS.Infinity
  \/ exists r, JS.roundDouble x = JS.Finite r.
Proof.
  unfold JS.roundDouble. destruct (Qnum x) as [|n|n].
  - right; right; eexists; reflexivity.
  - destruct (roundPos_cases n (Qden x)) as [-> | (r & -> & _)]; eauto.
  - destruct (roundPos_cases n (Qden x)) as [-> | (r & -> & _)]; cbn [JS.negate]; eauto.
Qed.

(** No elapsed time of a clock that has not gone back is below a limit that
    is zero or less. *)
Lemma nonpositive_limit_guard (q : Q) (e : Z) :
  (q <= 0)%Q -> 0 <= e ->
  JS.lt (JS.ofZ e) (JS.mul (JS.Finite q) (JS.ofZ 1000)) = false.
Proof.
  intros Hq He. cbn [JS.mul JS.ofZ].
  assert (Hx : (q * inject_Z 1000 <= 0)%Q).
  { setoid_replace 0%Q with (0 * inject_Z 1000)%Q by ring.
    apply Qmult_le_compat_r; [exact Hq | discriminate]. }
  assert (He' : (0 <= inject_Z e)%Q).
  { change 0%Q with (inject_Z 0). rewrite <- Zle_Qle. exact He. }
  destruct (roundDouble_nonpos _ Hx) as [-> | (r & -> & Hr)]; [reflexivity|].
  cbn [JS.lt]. unfold JS.Qltb. apply negb_false_iff, Qle_bool_iff.
  apply Qle_trans with (y := 0%Q); assumption.
Qed.

Lemma guard_false_late l now t p :
  JS.mul (timeout l) (JS.ofZ 1000) = JS.Finite p ->
  Qceiling p <= t - now ->
  guard l now t = false.
Proof.
  intros Hp Hle. unfold guard. rewrite Hp.
  cbn [JS.ofZ JS.lt]. unfold JS.Qltb.
  apply negb_false_iff, Qle_bool_iff.
  apply Qle_trans with (y := inject_Z (Qceiling p)).
  - apply Qle_ceiling.
  - rewrite <- Zle_Qle. exact Hle.
Qed.

Lemma loop_ends_from l w p (m k : nat) :
  JS.mul (timeout l) (JS.ofZ 1000) = JS.Finite p ->
  (forall n, clock w n < clock w (S n)) ->
  Qceiling p <= Z.of_nat (k + m) ->
  snd (loop (S m) l (clock w O) w k) <> Pending.
Proof.
  intros Hq Hclock. revert k. induction m as [|m IH]; intros k Hk.
  - rewrite loop_step_timeout; [discriminate|].
    apply (guard_false_late l _ _ p Hq).
    pose proof (clock_progress w Hclock (S k)). lia.
  - destruct (guard l (clock w O) (clock w (S k))) eqn:Hg.
    + destruct (body l (remote w k)) as [tr c] eqn:Hb.
      destruct c as [[]| | |e].
      * rewrite (loop_step_next (S m) l _ w k tr Hg) by (rewrite Hb; auto).
        apply IH. lia.
      * rewrite (loop_step_next (S m) l _ w k tr Hg) by (rewrite Hb; auto).
        apply IH. lia.
      * rewrite (loop_step_return (S m) l _ w k tr Hg Hb). discriminate.
      * rewrite (loop_step_throw (S m) l _ w k tr e Hg Hb). discriminate.
    + rewrite (loop_step_timeout (S m) l _ w k Hg). discriminate.
Qed.

Lemma loop_ends_under_progress l w p :
  JS.mul (timeout l) (JS.ofZ 1000) = JS.Finite p ->
  (forall n, clock w n < clock w (S n)) ->
  exists fuel, forall extra, snd (loop (fuel + extra) l (clock w O) w O) <> Pending.
Proof.
  intros Hq Hclock.
  exists (S (Z.to_nat (Qceiling p))). intros extra.
  change (S ?a + extra)%nat with (S (a + extra)).
  apply (loop_ends_from l w p _ O Hq Hclock). lia.
Qed.

(** ** Output names of the summary (lines 120 to 141) *)

(** Where no field holds the string "status", the summary loop sets exactly
    the documented outputs. *)
Lemma publishBranch_roundtrip b :
  (forall key, In key branchKeys ->
               JS.strictEqString (Branch.get b key) "status" = false) ->
  outputs (fst (publishBranch b)) = documentedBranchOutputs b.
Proof.
  intros H. rewrite publishBranch_outputs. unfold documentedBranchOutputs.
  induction branchKeys as [|key keys IH]; [reflexivity|].
  cbn [flat_map]. rewrite IH by (intros k Hk; apply H; right; exact Hk).
  f_equal. unfold branchOutput, fieldOutput; cbv zeta.
  rewrite (H key) by (left; reflexivity). reflexivity.
Qed.

(** C5, evaluated where the code departs from it. For the preview branch of
    the git branch called "status", a ready tick sets the summary's name
    under [namebranch_status]: the truthy [name] attribute has no output
    under its documented name. *)
Theorem name_status_not_published_as_name :
  JS.truthy (Branch.get (sampleBranch "status" "MIGRATIONS_PASSED") "name") = true
  /\ snd (body statusLocals
            (remoteOf (Resolved [sampleBranch "status" "MIGRATIONS_PASSED"])
               (Resolved (Some sampleDetails)) (Resolved (Some sampleKeys))))
     = Return
  /\ outputsUnder "name"
       (outputs (fst (body statusLocals
                        (remoteOf (Resolved [sampleBranch "status" "MIGRATIONS_PASSED"])
                           (Resolved (Some sampleDetails))
                           (Resolved (Some sampleKeys))))))
     = []
  /\ outputsUnder "namebranch_status"
       (outputs (fst (body statusLocals
                        (remoteOf (Resolved [sampleBranch "status" "MIGRATIONS_PASSED"])
                           (Resolved (Some sampleDetails))
                           (Resolved (Some sampleKeys))))))
     = [("namebranch_status", "status")]
  /\ outputsUnder "name"
       (documentedBranchOutputs (sampleBranch "status" "MIGRATIONS_PASSED"))
     = [("name", "status")].
Proof. repeat split. Qed.

(** The renaming branch of line 136 can be taken: for the summary of the git
    branch called "status" the name is set under a key that is not one of
    the documented ones (the departure reported for C5). *)
Lemma rename_triggers_on_value_status :
  ~ (forall k v,
       In (k, v) (outputs (fst (publishBranch (sampleBranch "status" "MIGRATIONS_PASSED")))) ->
       In k branchKeys).
Proof.
  intros H.
  specialize (H "namebranch_status" "status").
  assert (Hin : In "namebranch_status" branchKeys).
  { apply H. vm_compute. right; left; reflexivity. }
  unfold branchKeys in Hin; simpl in Hin.
  repeat (destruct Hin as [Hin | Hin]; [discriminate Hin|]).
  exact Hin.
Qed.

Lemma outputsUnder_app key a b :
  outputsUnder key (a ++ b) = (outputsUnder key a ++ outputsUnder key b)%list.
Proof. apply filter_app. Qed.

Lemma branchOutput_other b key other :
  (other =? key) = false -> (other ++ "branch_status" =? key) = false ->
  outputsUnder key (branchOutput b other) = [].
Proof.
  intros H1 H2. unfold branchOutput, outputsUnder; cbv zeta.
  destruct (JS.truthy _); [|reflexivity].
  destruct (JS.strictEqString _ _); cbn [filter fst]; rewrite ?H1, ?H2; reflexivity.
Qed.

Lemma branchOutput_status b :
  Branch.status b <> "" -> Branch.status b <> "status" ->
  branchOutput b "status" = [("status", Branch.status b)].
Proof.
  intros H1 H2. unfold branchOutput; cbv zeta.
  change (Branch.get b "status") with (JS.String (Branch.status b)).
  cbn [JS.truthy JS.strictEqString JS.toString].
  apply String.eqb_neq in H1, H2. rewrite H1, H2. reflexivity.
Qed.

Lemma branchOutput_key b key k v :
  In (k, v) (branchOutput b key) ->
  k = key \/ (v = "status" /\ k = key ++ "branch_status").
Proof.
  unfold branchOutput; cbv zeta.
  destruct (JS.truthy _); [|intros []].
  destruct (JS.strictEqString _ _) eqn:E; intros [H | []]; injection H as <- <-.
  - right. split; [|reflexivity].
    destruct (Branch.get b key); try discriminate E.
    apply String.eqb_eq in E. subst. reflexivity.
  - left; reflexivity.
Qed.

(** An output of the summary loop carries the name of its field, unless its
    value is the string "status". *)
Lemma renamed_only_for_value_status (b : Branch.t) (k v : string) :
  In (k, v) (outputs (fst (publishBranch b))) ->
  In k branchKeys
  \/ (v = "status" /\ exists k0, In k0 branchKeys /\ k = k0 ++ "branch_status").
Proof.
  rewrite publishBranch_outputs.
  intros Hin. apply in_flat_map in Hin. destruct Hin as (key & Hkey & Hin).
  destruct (branchOutput_key b key k v Hin) as [-> | [-> ->]]; [left; exact Hkey|].
  right. split; [reflexivity|]. exists key; auto.
Qed.

Lemma status_output_once (b : Branch.t) :
  Branch.status b <> "" -> Branch.status b <> "status" ->
  outputsUnder "status" (outputs (fst (publishBranch b)))
    = [("status", Branch.status b)]
  /\ outputsUnder "statusbranch_status" (outputs (fst (publishBranch b))) = [].
Proof.
  intros H1 H2. rewrite publishBranch_outputs.
  split.
  - unfold branchKeys. cbn [flat_map]. rewrite !outputsUnder_app.
    rewrite (branchOutput_status b H1 H2).
    rewrite (branchOutput_other b "status" "id"),
            (branchOutput_other b "status" "name"),
            (branchOutput_other b "status" "project_ref"),
            (branchOutput_other b "status" "parent_project_ref"),
            (branchOutput_other b "status" "git_branch"),
            (branchOutput_other b "status" "pr_number"),
            (branchOutput_other b "status" "reset_on_push"),
            (branchOutput_other b "status" "created_at"),
            (branchOutput_other b "status" "updated_at") by reflexivity.
    reflexivity.
  - unfold branchKeys. cbn [flat_map]. rewrite !outputsUnder_app.
    rewrite (branchOutput_status b H1 H2).
    rewrite (branchOutput_other b "statusbranch_status" "id"),
            (branchOutput_other b "statusbranch_status" "name"),
            (branchOutput_other b "statusbranch_status" "project_ref"),
            (branchOutput_other b "statusbranch_status" "parent_project_ref"),
            (branchOutput_other b "statusbranch_status" "git_branch"),
            (branchOutput_other b "statusbranch_status" "pr_number"),
            (branchOutput_other b "statusbranch_status" "reset_on_push"),
            (branchOutput_other b "statusbranch_status" "created_at"),
            (branchOutput_other b "statusbranch_status" "updated_at") by reflexivity.
    reflexivity.
Qed.

(** The status of a summary is a value of the status enum of the management
    API.  The enum is declared by the client library, not in this
    repository: its values are taken as given, together with the one fact
    the comparison of line 135 turns on, that the string "status" is not
    one of them. *)
Section StatusEnum.
Variable branchStatuses : list string.
Hypothesis status_is_no_status : ~ In "status" branchStatuses.

(** C6. The special renaming of the status output key never takes place:
    line 135 compares the value of a field, not its name, with "status", so
    for every summary (its status a value of the status enum) the status
    attribute, when truthy, is set exactly once, under the key [status], with
    its own value, and nothing is set under the renamed key
    [statusbranch_status]; this holds whatever the other fields hold. *)
Theorem status_key_not_renamed (b : Branch.t) :
  In (Branch.status b) branchStatuses ->
  Branch.status b <> "" ->
  outputsUnder "status" (outputs (fst (publishBranch b)))
    = [("status", Branch.status b)]
  /\ outputsUnder "statusbranch_status" (outputs (fst (publishBranch b))) = []
  /\ JS.strictEqString (Branch.get b "status") "status" = false.
Proof.
  intros Hin Htruthy.
  assert (Hne : Branch.status b <> "status")
    by (intros E; rewrite E in Hin; contradiction).
  destruct (status_output_once b Htruthy Hne) as [H1 H2].
  split; [exact H1|]. split; [exact H2|].
  change (Branch.get b "status") with (JS.String (Branch.status b)).
  cbn [JS.strictEqString]. apply String.eqb_neq, Hne.
Qed.
End StatusEnum.

Lemma status_key_not_renamed_witness :
  outputsUnder "status"
    (outputs (fst (publishBranch (sampleBranch "status" "FUNCTIONS_DEPLOYED"))))
  = [("status", "FUNCTIONS_DEPLOYED")].
Proof.
  refine (proj1 (status_key_not_renamed apiBranchStatuses _
                   (sampleBranch "status" "FUNCTIONS_DEPLOYED") _ _)).
  - unfold apiBranchStatuses; simpl.
    intros H. repeat (destruct H as [H | H]; [discriminate H|]). exact H.
  - unfold apiBranchStatuses; simpl. auto 8.
  - discriminate.
Defined.

(** ** The timeout input (lines 11 and 26 to 29) *)

Lemma negative_timeout_guard (tm : JS.number) (e : Z) :
  JS.lt tm (JS.ofZ 0) = true -> 0 <= e ->
  JS.lt (JS.ofZ e) (JS.mul tm (JS.ofZ 1000)) = false.
Proof.
  intros Hneg He. destruct tm as [| |q|]; try discriminate Hneg; [reflexivity|].
  apply nonpositive_limit_guard; [|exact He].
  cbn [JS.lt JS.ofZ] in Hneg. unfold JS.Qltb in Hneg.
  apply negb_true_iff in Hneg.
  apply Qlt_le_weak, Qnot_le_lt. intros Hle. apply Qle_bool_iff in Hle.
  change (inject_Z 0) with 0%Q in Hneg. congruence.
Qed.

(** C9 as amended. When the timeout input parses to NaN the run fails with
    a configuration error and makes no remote call.  A negative timeout is
    not refused as such: while the clock does not run backwards the run
    still makes no remote call and fails, but with the timeout message
    unless another input is missing. *)
Theorem timeout_validation (fuel : nat) (i : Input.t) (w : World) :
  (JS.isNaN (Input.timeout i) = true ->
   exists msg,
     In msg configurationErrors
     /\ run fuel i w =
          ([ SetSecret (Input.sbToken i); SetSecret (Input.sbRef i); SetFailed msg ],
           Fulfilled)
     /\ remoteCalls (fst (run fuel i w)) = [])
  /\ (JS.lt (Input.timeout i) (JS.ofZ 0) = true ->
      clock w 0 <= clock w 1 ->
      remoteCalls (fst (run (S fuel) i w)) = []
      /\ snd (run (S fuel) i w) = Fulfilled
      /\ exists msg,
           failures (fst (run (S fuel) i w)) = [msg]
           /\ (In msg configurationErrors
               \/ exists bn, msg = "Timeout waiting for branch " ++ bn ++ " to be created")).
Proof.
  split.
  - intros Hnan. unfold run, main. rewrite Hnan.
    destruct (Input.sbToken i =? ""); [|destruct (Input.sbRef i =? "")];
      eexists; (split; [|split; reflexivity]); simpl; auto.
  - intros Hneg Hclock. unfold run, main.
    destruct (Input.sbToken i =? "");
      [repeat split; eexists; split; [reflexivity | left; simpl; auto]|].
    destruct (Input.sbRef i =? "");
      [repeat split; eexists; split; [reflexivity | left; simpl; auto]|].
    destruct (JS.isNaN (Input.timeout i));
      [repeat split; eexists; split; [reflexivity | left; simpl; auto]|].
    destruct (resolveBranchName i) as [bn|];
      [|repeat split; eexists; split; [reflexivity | left; simpl; auto 6]].
    destruct (bn =? "");
      [repeat split; eexists; split; [reflexivity | left; simpl; auto 6]|].
    rewrite loop_step_timeout.
    + repeat split. eexists; split; [reflexivity|]. right. exists bn. reflexivity.
    + apply negative_timeout_guard; [exact Hneg | cbn [clock]; lia].
Qed.

Lemma timeout_validation_witness :
  exists msg,
    In msg configurationErrors
    /\ run 3 (sampleInput JS.NaN) (steadyWorld 2900 (remoteOf (Resolved []) (Resolved None) (Resolved None)))
       = ([ SetSecret "sbp_token"; SetSecret "parentref"; SetFailed msg ], Fulfilled)
    /\ remoteCalls
         (fst (run 3 (sampleInput JS.NaN)
                 (steadyWorld 2900 (remoteOf (Resolved []) (Resolved None) (Resolved None)))))
       = [].
Proof.
  exact (proj1 (timeout_validation 3 (sampleInput JS.NaN)
                  (steadyWorld 2900 (remoteOf (Resolved []) (Resolved None) (Resolved None))))
           eq_refl).
Defined.

(** The claim C9 fails as stated: the timeout "-5" is not a non-negative
    number, yet the run does not fail with a configuration error; it fails
    with the timeout message. *)
Lemma negative_timeout_not_configuration_error :
  JS.ge (Input.timeout (sampleInput (JS.ofZ (-5)))) (JS.ofZ 0) = false
  /\ failures
       (fst (run 3 (sampleInput (JS.ofZ (-5)))
               (steadyWorld 2900 (remoteOf (Resolved []) (Resolved None) (Resolved None)))))
     = ["Timeout waiting for branch feat-x to be created"]
  /\ ~ In "Timeout waiting for branch feat-x to be created" configurationErrors.
Proof.
  split; [reflexivity|]. split; [reflexivity|].
  unfold configurationErrors; simpl.
  intros H. repeat (destruct H as [H | H]; [discriminate H|]). exact H.
Qed.

(** ** Secrets are marked before they are set (lines 115 to 165) *)

Lemma masked_app (a b : trace) : masked a -> masked b -> masked (a ++ b)%list.
Proof.
  intros Ha Hb. induction Ha; simpl.
  - exact Hb.
  - apply masked_pair; assumption.
  - apply masked_url; assumption.
  - apply masked_lone; assumption.
  - apply masked_other; assumption.
Qed.

Lemma masked_plain e : isPlain e = true -> masked [e].
Proof.
  intros H. apply masked_other.
  - destruct e; try discriminate H; reflexivity.
  - intros v ->. discriminate H.
  - constructor.
Qed.

Lemma body_masked l r : masked (fst (body l r)).
Proof.
  apply shape_body.
  - constructor.
  - apply masked_app.
  - apply masked_plain.
  - intros k v Hk. apply masked_pair; [exact Hk | constructor].
  - intros k v Hk. apply masked_url; [exact Hk | constructor].
Qed.

Lemma masked_clock t rest : masked rest -> masked (DateNow t :: rest).
Proof.
  intros H. apply masked_other; [reflexivity | discriminate | exact H].
Qed.

Lemma masked_failed msg : masked [SetFailed msg].
Proof. apply masked_other; [reflexivity | discriminate | constructor]. Qed.

Lemma loop_masked fuel l now w k : masked (fst (loop fuel l now w k)).
Proof.
  revert k. induction fuel as [|fuel IH]; intros k; [constructor|].
  cbn [loop]. pose proof (body_masked l (remote w k)) as Hb.
  specialize (IH (S k)).
  destruct (guard l now (clock w (S k))).
  - destruct (body l (remote w k)) as [tr [[]| | |e]]; cbn [fst] in Hb;
      try destruct (loop fuel l now w (S k)) as [tr' o]; cbn [fst] in *;
      apply masked_clock; try apply masked_app; assumption.
  - apply masked_clock, masked_failed.
Qed.

Lemma main_masked fuel i w : masked (fst (main fuel i w)).
Proof.
  unfold main.
  assert (Hfail : forall msg,
            masked [SetSecret (Input.sbToken i); SetSecret (Input.sbRef i); SetFailed msg]).
  { intros msg. apply masked_lone; [reflexivity|].
    apply masked_lone; [reflexivity | apply masked_failed]. }
  assert (Hlog : forall s rest, outputs [s] = [] -> (forall v, s <> SetSecret v) ->
            masked rest ->
            masked (SetSecret (Input.sbToken i) :: SetSecret (Input.sbRef i)
                      :: ConsoleLog (JS.toString (Branch.optString (resolveBranchName i)))
                      :: s :: rest)).
  { intros s rest Hs Hs' Hrest. apply masked_lone; [reflexivity|].
    apply masked_lone; [reflexivity|].
    apply masked_other; [reflexivity | discriminate |].
    apply masked_other; assumption. }
  destruct (Input.sbToken i =? ""); [apply Hfail|].
  destruct (Input.sbRef i =? ""); [apply Hfail|].
  destruct (JS.isNaN (Input.timeout i)); [apply Hfail|].
  destruct (resolveBranchName i) as [bn|] eqn:Hbn.
  - destruct (bn =? "").
    + apply (Hlog (SetFailed _) []); [reflexivity | discriminate | constructor].
    + match goal with
      | |- context [loop fuel ?l ?n w 0%nat] =>
          pose proof (loop_masked fuel l n w 0%nat) as Hl;
          destruct (loop fuel l n w 0%nat) as [tr o]
      end.
      cbn [fst] in *.
      apply (Hlog (CoreInfo _)); [reflexivity | discriminate |].
      apply masked_clock, Hl.
  - apply (Hlog (SetFailed _) []); [reflexivity | discriminate | constructor].
Qed.

Lemma run_masked fuel i w : masked (fst (run fuel i w)).
Proof.
  unfold run. pose proof (main_masked fuel i w) as Hm.
  destruct (main fuel i w) as [tr [|e|]]; cbn [fst] in *; try exact Hm.
  apply masked_app; [exact Hm|]. unfold handleError.
  apply masked_other; [reflexivity | discriminate | apply masked_failed].
Qed.

Lemma lastEvent_cons e x rest : lastEvent (e :: x :: rest) = lastEvent (x :: rest).
Proof. reflexivity. Qed.

(** In a trace with the masking discipline, the event just before an output
    is the marking of its value, unless the output is one of the two URLs,
    which no marking precedes. *)
Lemma masked_before_output tr :
  masked tr ->
  forall pre k v post, tr = (pre ++ SetOutput k v :: post)%list ->
  (isUrlKey k = false /\ lastEvent pre = Some (SetSecret v))
  \/ (isUrlKey k = true /\ forall s, lastEvent pre <> Some (SetSecret s)).
Proof.
  induction 1 as [ | k0 v0 rest Hk Hrest IH | k0 v0 rest Hk Hrest IH
                   | v0 e rest He Hrest IH | e rest He Hns Hrest IH ];
    intros pre k v post Heq.
  - destruct pre; discriminate Heq.
  - destruct pre as [|x [|y pre]]; simpl in Heq.
    + discriminate Heq.
    + injection Heq as <- -> -> _. left. split; [exact Hk | reflexivity].
    + injection Heq as <- <- Heq.
      destruct (IH pre k v post Heq) as [[Hu Hl] | [Hu Hl]].
      * destruct pre as [|z pre]; [discriminate Hl|].
        left. split; [exact Hu|]. rewrite !lastEvent_cons. exact Hl.
      * right. split; [exact Hu|]. intros s.
        destruct pre as [|z pre]; [cbn; discriminate|].
        rewrite !lastEvent_cons. apply Hl.
  - destruct pre as [|x pre]; simpl in Heq.
    + injection Heq as -> -> _. right. split; [exact Hk | intros s; discriminate].
    + injection Heq as <- Heq.
      destruct (IH pre k v post Heq) as [[Hu Hl] | [Hu Hl]].
      * destruct pre as [|z pre]; [discriminate Hl|].
        left. split; [exact Hu|]. rewrite lastEvent_cons. exact Hl.
      * right. split; [exact Hu|]. intros s.
        destruct pre as [|z pre]; [cbn; discriminate|].
        rewrite lastEvent_cons. apply Hl.
  - destruct pre as [|x pre]; simpl in Heq; [discriminate Heq|].
    injection Heq as <- Heq.
    destruct pre as [|z pre].
    + simpl in Heq. injection Heq as -> _. discriminate He.
    + rewrite lastEvent_cons. exact (IH (z :: pre) k v post Heq).
  - destruct pre as [|x pre]; simpl in Heq.
    + injection Heq as -> _. discriminate He.
    + injection Heq as -> Heq.
      destruct (IH pre k v post Heq) as [[Hu Hl] | [Hu Hl]].
      * destruct pre as [|z pre]; [discriminate Hl|].
        left. split; [exact Hu|]. rewrite lastEvent_cons. exact Hl.
      * right. split; [exact Hu|]. intros s.
        destruct pre as [|z pre].
        -- cbn. intros E. injection E as E. exact (Hns s E).
        -- rewrite lastEvent_cons. apply Hl.
Qed.

Lemma isUrlKey_spec k : isUrlKey k = true <-> k = "api_url" \/ k = "graphql_url".
Proof.
  unfold isUrlKey. rewrite orb_true_iff, !String.eqb_eq. reflexivity.
Qed.

(** C10. In every run, each output other than [api_url] and [graphql_url]
    is set right after [core.setSecret] was called on the very value it
    carries (a credential's [api_key], a truthy summary or detail field
    stringified); the two URL outputs are the only ones set with no marking
    call before them. *)
Theorem secrets_marked_before_output (fuel : nat) (i : Input.t) (w : World)
    (pre post : trace) (k v : string) :
  fst (run fuel i w) = (pre ++ SetOutput k v :: post)%list ->
  (k <> "api_url" /\ k <> "graphql_url" /\ lastEvent pre = Some (SetSecret v))
  \/ ((k = "api_url" \/ k = "graphql_url")
      /\ forall s, lastEvent pre <> Some (SetSecret s)).
Proof.
  intros H.
  destruct (masked_before_output _ (run_masked fuel i w) pre k v post H)
    as [[Hu Hl] | [Hu Hl]].
  - left. split; [|split; [|exact Hl]]; intros ->; discriminate Hu.
  - right. split; [apply isUrlKey_spec, Hu | exact Hl].
Qed.

Lemma secrets_marked_before_output_witness :
  ("anon_key" <> "api_url" /\ "anon_key" <> "graphql_url"
   /\ lastEvent (firstn 11 sampleRun) = Some (SetSecret "anon-secret"))
  \/ (("anon_key" = "api_url" \/ "anon_key" = "graphql_url")
      /\ forall s, lastEvent (firstn 11 sampleRun) <> Some (SetSecret s)).
Proof.
  exact (secrets_marked_before_output 3 (sampleInput (JS.ofZ 60))
           (steadyWorld 2900
              (remoteOf (Resolved [sampleBranch "feat-x" "MIGRATIONS_PASSED"])
                 (Resolved (Some sampleDetails)) (Resolved (Some sampleKeys))))
           (firstn 11 sampleRun) (skipn 12 sampleRun)
           "anon_key" "anon-secret" eq_refl).
Defined.

Example sampleRun_urls_unmarked :
  exists pre post,
    sampleRun = (pre ++ SetOutput "api_url" "https://childref.supabase.co/rest/v1"
                   :: post)%list
    /\ lastEvent pre = Some (SetOutput "jwt_secret" "jwt").
Proof.
  exists (firstn 42 sampleRun), (skipn 43 sampleRun). split; reflexivity.
Qed.

(** * Further properties of [main] *)

(** ** The resolver (line 69) *)

(** X1. The candidate is the first listed branch whose name is the git
    branch name: no branch listed before it carries that name; and there is
    no candidate exactly when no listed branch carries it. *)
Theorem findBranch_first (name : string) (branches : list Branch.t) :
  (forall b, findBranch name branches = Some b ->
     exists before after,
       branches = (before ++ b :: after)%list
       /\ Branch.name b = name
       /\ forall x, In x before -> Branch.name x <> name)
  /\ (findBranch name branches = None <->
      forall x, In x branches -> Branch.name x <> name).
Proof.
  unfold findBranch. split.
  - induction branches as [|x branches IH]; intros b H; [discriminate H|].
    cbn [find] in H. destruct (Branch.name x =? name) eqn:E.
    + injection H as <-. exists [], branches.
      split; [reflexivity|]. split; [apply String.eqb_eq, E | intros y []].
    + destruct (IH b H) as (before & after & -> & Hn & Hb).
      exists (x :: before), after. split; [reflexivity|]. split; [exact Hn|].
      intros y [<- | Hy]; [apply String.eqb_neq, E | apply Hb, Hy].
  - split.
    + intros H x Hx. apply (find_none _ _ H) in Hx. apply String.eqb_neq, Hx.
    + intros H. destruct (find _ branches) as [b|] eqn:E; [|reflexivity].
      apply find_some in E. destruct E as [Hin Heq].
      apply String.eqb_eq in Heq. destruct (H b Hin Heq).
Qed.

(** ** The remote calls of one tick (lines 56 to 107) *)

Lemma remoteCalls_app (a b : trace) :
  remoteCalls (a ++ b)%list = (remoteCalls a ++ remoteCalls b)%list.
Proof. apply filter_app. Qed.

Lemma publishing_makes_no_call (b : Branch.t) (d : BranchDetails.t) (keys : list ApiKey.t) :
  remoteCalls (fst (publishApiKeys keys) ++ fst (publishBranch b)
                 ++ fst (publishBranchDetails d) ++ fst (publishUrls d)
                 ++ [CoreInfo "success"])%list = [].
Proof.
  assert (Happ : forall x y : trace,
             remoteCalls x = [] -> remoteCalls y = [] -> remoteCalls (x ++ y)%list = []).
  { intros x y Hx Hy. rewrite remoteCalls_app, Hx, Hy. reflexivity. }
  repeat apply Happ; try reflexivity.
  - apply (closed_forOf (fun tr => remoteCalls tr = []) eq_refl Happ).
    intros k _. reflexivity.
  - apply (closed_forOf (fun tr => remoteCalls tr = []) eq_refl Happ).
    intros key _. cbv zeta. destruct (JS.truthy _); reflexivity.
  - apply (closed_forOf (fun tr => remoteCalls tr = []) eq_refl Happ).
    intros key _. cbv zeta. destruct (JS.truthy _); reflexivity.
Qed.

Lemma actedUpon_resolved l r branches :
  getBranches r (sbRef l) = Resolved branches ->
  actedUpon l r =
    if ready (waitForMigrations l) (findBranch (branchName l) branches)
    then findBranch (branchName l) branches else None.
Proof. intros H. unfold actedUpon. rewrite H. reflexivity. Qed.

(** X2. A tick calls the API at most three times, in a fixed order:
    always [getBranches] for the parent project; then, only when a candidate
    is acted upon, [getBranchDetails] for the candidate's id; then, only when
    that fetch yielded a record, [getProjectApiKeys] for the candidate's own
    project reference.  Publishing itself makes no call. *)
Theorem tick_remote_calls (l : Locals) (r : Remote) :
  remoteCalls (fst (body l r)) =
    GetBranches (sbRef l) ::
    match actedUpon l r with
    | None => []
    | Some b =>
        GetBranchDetails (Branch.id b) ::
        match getBranchDetails r (Branch.id b) with
        | Resolved (Some _) => [GetProjectApiKeys (Branch.project_ref b)]
        | _ => []
        end
    end.
Proof.
  destruct (getBranches r (sbRef l)) as [branches | err] eqn:Hb.
  - rewrite (actedUpon_resolved l r branches Hb).
    destruct (ready (waitForMigrations l) (findBranch (branchName l) branches)) eqn:Hr.
    + destruct (findBranch (branchName l) branches) as [b|] eqn:Hf; [|discriminate Hr].
      rewrite (body_ready l r branches b Hb Hf Hr). cbn [fst].
      destruct (getBranchDetails r (Branch.id b)) as [[d|] | e] eqn:Hd.
      * destruct (getProjectApiKeys r (Branch.project_ref b)) as [[keys|] | e] eqn:Hk.
        -- rewrite (fetch_success l r b d keys Hd Hk). cbn [fst].
           change (remoteCalls (?a :: ?b :: ?c :: ?d :: ?rest))
             with (a :: c :: d :: remoteCalls rest).
           rewrite publishing_makes_no_call. reflexivity.
        -- rewrite (fetch_keys_empty l r b d Hd Hk). reflexivity.
        -- destruct (ApiError.retryable e) eqn:He.
           ++ rewrite (fetch_keys_retryable l r b d e Hd Hk He). reflexivity.
           ++ rewrite (fetch_keys_fatal l r b d e Hd Hk He). reflexivity.
      * rewrite (fetch_details_empty l r b Hd). reflexivity.
      * destruct (ApiError.retryable e) eqn:He.
        -- rewrite (fetch_details_retryable l r b e Hd He). reflexivity.
        -- rewrite (fetch_details_fatal l r b e Hd He). reflexivity.
    + rewrite (body_not_ready l r branches Hb Hr). reflexivity.
  - unfold actedUpon. rewrite Hb. destruct (ApiError.retryable err) eqn:Hr.
    + rewrite (body_listing_retryable l r err Hb Hr). reflexivity.
    + rewrite (body_listing_fatal l r err Hb Hr). reflexivity.
Qed.

(** ** Failures of the two later fetches (lines 80 to 88 and 99 to 107) *)

(** X3. When the detail fetch, or the credential fetch after an answered
    detail fetch, is rejected with a status other than 429 and below 500 (or
    with no status), the tick throws an error whose cause is that rejection,
    sets no output, and the loop ends rejected with it: no later tick runs. *)
Theorem fetch_failure_aborts (l : Locals) (r : Remote) (b : Branch.t) (err : ApiError.t) :
  actedUpon l r = Some b ->
  ~ (exists s, ApiError.status err = Some s /\ (s = 429 \/ 500 <= s)) ->
  (getBranchDetails r (Branch.id b) = Rejected err
   \/ ((exists d, getBranchDetails r (Branch.id b) = Resolved (Some d))
       /\ getProjectApiKeys r (Branch.project_ref b) = Rejected err)) ->
  exists e,
    snd (body l r) = Throw e
    /\ cause e = err
    /\ (message e = "Error fetching branch details"
        \/ message e = "Error fetching api keys")
    /\ outputs (fst (body l r)) = []
    /\ forall fuel now w k, remote w k = r ->
         guard l now (clock w (S k)) = true ->
         loop (S fuel) l now w k =
           (DateNow (clock w (S k)) :: fst (body l r), RejectedWith e).
Proof.
  intros Ha Hs Hfail. apply retryable_not in Hs.
  unfold actedUpon in Ha.
  destruct (getBranches r (sbRef l)) as [branches | e0] eqn:Hb; [|discriminate Ha].
  destruct (ready (waitForMigrations l) (findBranch (branchName l) branches)) eqn:Hr;
    [|discriminate Ha].
  rewrite Ha in Hr.
  pose proof (body_ready l r branches b Hb Ha Hr) as Hbody.
  assert (Hfp : exists e,
             snd (fetchAndPublish l r b) = Throw e
             /\ cause e = err
             /\ (message e = "Error fetching branch details"
                 \/ message e = "Error fetching api keys")
             /\ outputs (fst (fetchAndPublish l r b)) = []).
  { destruct Hfail as [Hd | [(d & Hd) Hk]].
    - rewrite (fetch_details_fatal l r b err Hd Hs).
      eexists; repeat split; auto.
    - rewrite (fetch_keys_fatal l r b d err Hd Hk Hs).
      eexists; repeat split; auto. }
  destruct Hfp as (e & Hfp & Hc & Hm & Ho).
  exists e. rewrite Hbody. cbn [fst snd outputs].
  split; [exact Hfp|]. split; [exact Hc|]. split; [exact Hm|].
  split; [exact Ho|].
  intros fuel now w k <- Hg.
  apply loop_step_throw; [exact Hg|]. rewrite Hbody, Hfp. reflexivity.
Qed.

Lemma fetch_failure_aborts_witness :
  exists e,
    snd (body (sampleLocals false 60)
           (remoteOf (Resolved [sampleBranch "feat-x" "CREATING_PROJECT"])
              (Rejected (serverError 404)) (Resolved None))) = Throw e
    /\ cause e = serverError 404.
Proof.
  destruct (fetch_failure_aborts (sampleLocals false 60)
              (remoteOf (Resolved [sampleBranch "feat-x" "CREATING_PROJECT"])
                 (Rejected (serverError 404)) (Resolved None))
              (sampleBranch "feat-x" "CREATING_PROJECT") (serverError 404)
              eq_refl) as (e & H1 & H2 & _).
  - intros (s & Hs & [H | H]); injection Hs as <-; [discriminate H | lia].
  - left; reflexivity.
  - exists e; split; assumption.
Defined.

(** ** Outputs and failures of a run (lines 16 to 47, 158 to 167, 176, 181 to 184) *)

Lemma failures_app (a b : trace) : failures (a ++ b)%list = (failures a ++ failures b)%list.
Proof.
  induction a as [|e a IH]; simpl; [reflexivity|].
  destruct e; simpl; rewrite ?IH; reflexivity.
Qed.

Lemma body_sets_no_failure l r : failures (fst (body l r)) = [].
Proof.
  apply (shape_body (fun tr => failures tr = [])).
  - reflexivity.
  - intros a b Ha Hb. rewrite failures_app, Ha, Hb. reflexivity.
  - intros e He. destruct e; try discriminate He; reflexivity.
  - reflexivity.
  - reflexivity.
Qed.

Lemma fullOutputs_nonempty b d keys : fullOutputs b d keys <> [].
Proof.
  unfold fullOutputs. intros H.
  apply app_eq_nil in H. destruct H as [_ H].
  apply app_eq_nil in H. destruct H as [_ H].
  apply app_eq_nil in H. destruct H as [_ H]. discriminate H.
Qed.

Lemma body_outputs_iff_return l r :
  (snd (body l r) = Return -> outputs (fst (body l r)) <> [])
  /\ (snd (body l r) <> Return -> outputs (fst (body l r)) = []).
Proof.
  destruct (body_all_or_nothing l r)
    as [[Ho Hn] | (branches & b & d & keys & _ & _ & _ & _ & Hret & Ho)].
  - split; [intros H; contradiction | intros _; exact Ho].
  - split; [intros _; rewrite Ho; apply fullOutputs_nonempty | intros H; contradiction].
Qed.

Lemma body_throw_cases l r e :
  snd (body l r) = Throw e ->
  In (message e) fatalMessages /\ ApiError.retryable (cause e) = false.
Proof.
  unfold fatalMessages.
  destruct (getBranches r (sbRef l)) as [branches | err] eqn:Hb.
  - destruct (ready (waitForMigrations l) (findBranch (branchName l) branches)) eqn:Hr.
    + destruct (findBranch (branchName l) branches) as [b|] eqn:Hf; [|discriminate Hr].
      rewrite (body_ready l r branches b Hb Hf Hr). cbn [snd].
      destruct (getBranchDetails r (Branch.id b)) as [[d|] | e0] eqn:Hd.
      * destruct (getProjectApiKeys r (Branch.project_ref b)) as [[keys|] | e0] eqn:Hk.
        -- rewrite (fetch_success l r b d keys Hd Hk). discriminate.
        -- rewrite (fetch_keys_empty l r b d Hd Hk). discriminate.
        -- destruct (ApiError.retryable e0) eqn:He.
           ++ rewrite (fetch_keys_retryable l r b d e0 Hd Hk He). discriminate.
           ++ rewrite (fetch_keys_fatal l r b d e0 Hd Hk He).
              intros H; injection H as <-. simpl; auto.
      * rewrite (fetch_details_empty l r b Hd). discriminate.
      * destruct (ApiError.retryable e0) eqn:He.
        -- rewrite (fetch_details_retryable l r b e0 Hd He). discriminate.
        -- rewrite (fetch_details_fatal l r b e0 Hd He).
           intros H; injection H as <-. simpl; auto.
    + rewrite (body_not_ready l r branches Hb Hr). discriminate.
  - destruct (ApiError.retryable err) eqn:Hr.
    + rewrite (body_listing_retryable l r err Hb Hr). discriminate.
    + rewrite (body_listing_fatal l r err Hb Hr).
      intros H; injection H as <-. simpl; auto.
Qed.

Lemma loop_settled fuel l now w k :
  settled (eq (timeoutMessage l)) (fst (loop fuel l now w k)) (snd (loop fuel l now w k)).
Proof.
  revert k. induction fuel as [|fuel IH]; intros k; [split; reflexivity|].
  destruct (guard l now (clock w (S k))) eqn:Hg.
  - pose proof (body_sets_no_failure l (remote w k)) as Hf.
    destruct (body_outputs_iff_return l (remote w k)) as [Hret Hnot].
    destruct (body l (remote w k)) as [tr c] eqn:Hb. cbn [fst snd] in *.
    assert (Hnext : c = Normal tt \/ c = Continue ->
              settled (eq (timeoutMessage l)) (fst (loop (S fuel) l now w k))
                (snd (loop (S fuel) l now w k))).
    { intros Hc.
      rewrite (loop_step_next fuel l now w k tr Hg) by (rewrite Hb; auto).
      cbn [fst snd]. specialize (IH (S k)).
      assert (Ho : outputs tr = []) by (apply Hnot; destruct Hc as [-> | ->]; discriminate).
      assert (Eo : outputs (DateNow (clock w (S k)) :: tr ++ fst (loop fuel l now w (S k)))%list
                   = outputs (fst (loop fuel l now w (S k))))
        by (cbn [outputs]; rewrite outputs_app, Ho; reflexivity).
      assert (Ef : failures (DateNow (clock w (S k)) :: tr ++ fst (loop fuel l now w (S k)))%list
                   = failures (fst (loop fuel l now w (S k))))
        by (cbn [failures]; rewrite failures_app, Hf; reflexivity).
      unfold settled in *. rewrite Eo, Ef. exact IH. }
    destruct c as [[]| | |e]; auto.
    + rewrite (loop_step_return fuel l now w k tr Hg Hb). cbn [fst snd settled outputs failures].
      left. split; [apply Hret; reflexivity | exact Hf].
    + rewrite (loop_step_throw fuel l now w k tr e Hg Hb). cbn [fst snd settled outputs failures].
      pose proof (body_throw_cases l (remote w k) e) as Ht. rewrite Hb in Ht.
      destruct (Ht eq_refl) as [Hm Hc].
      split; [apply Hnot; discriminate|]. split; [exact Hf|]. split; assumption.
  - rewrite (loop_step_timeout fuel l now w k Hg). cbn [fst snd settled].
    right. split; [reflexivity|]. exists (timeoutMessage l). split; reflexivity.
Qed.

Lemma main_settled fuel i w :
  settled mainFailure (fst (main fuel i w)) (snd (main fuel i w)).
Proof.
  unfold main.
  assert (Hcfg : forall pre msg, outputs pre = [] -> failures pre = [] ->
            In msg configurationErrors ->
            settled mainFailure (pre ++ [SetFailed msg])%list Fulfilled).
  { intros pre msg Ho Hf Hin. right.
    rewrite outputs_app, failures_app, Ho, Hf. split; [reflexivity|].
    exists msg. split; [reflexivity | left; exact Hin]. }
  destruct (Input.sbToken i =? "");
    [apply Hcfg; try reflexivity; simpl; auto|].
  destruct (Input.sbRef i =? "");
    [apply Hcfg; try reflexivity; simpl; auto|].
  destruct (JS.isNaN (Input.timeout i));
    [apply Hcfg; try reflexivity; simpl; auto|].
  destruct (resolveBranchName i) as [bn|];
    [|apply Hcfg; try reflexivity; simpl; auto 6].
  destruct (bn =? "");
    [apply Hcfg; try reflexivity; simpl; auto 6|].
  match goal with
  | |- context [loop fuel ?l ?n w 0%nat] =>
      pose proof (loop_settled fuel l n w 0%nat) as Hl;
      destruct (loop fuel l n w 0%nat) as [tr o]
  end.
  cbn [fst snd app outputs failures] in *.
  destruct o as [|e|]; cbn [settled] in *; try exact Hl.
  destruct Hl as [Hl | (Ho & msg & Hf & <-)]; [left; exact Hl | right].
  split; [exact Ho|]. eexists; split; [exact Hf|]. right. exists bn. reflexivity.
Qed.

(** When [main], its inputs read, is rejected, the error is one thrown by a
    catch handler for a rejection that is not retryable; nothing was
    published and no failure had been reported yet. *)
Lemma main_rejected_error (fuel : nat) (i : Input.t) (w : World)
    (tr : trace) (e : Error) :
  main fuel i w = (tr, RejectedWith e) ->
  In (message e) fatalMessages
  /\ ApiError.retryable (cause e) = false
  /\ outputs tr = [] /\ failures tr = []
  /\ run fuel i w =
       ((tr ++ [ConsoleError e; SetFailed ("Unhandled error: Error: " ++ message e)])%list,
        Fulfilled).
Proof.
  intros H. pose proof (main_settled fuel i w) as Hs. rewrite H in Hs.
  cbn [fst snd settled] in Hs. destruct Hs as (Ho & Hf & Hm & Hc).
  repeat split; try assumption.
  unfold run. rewrite H. unfold handleError, errorToString.
  unfold fatalMessages in Hm. simpl in Hm.
  destruct Hm as [<- | [<- | [<- | []]]]; reflexivity.
Qed.

Lemma run_never_rejected (fuel : nat) (i : Input.t) (w : World) (e : Error) :
  snd (run fuel i w) <> RejectedWith e.
Proof.
  unfold run. destruct (main fuel i w) as [tr [|e0|]]; discriminate.
Qed.

(** X4. [main] is rejected in two ways only.  When a read of lines 8 to 10
    throws, it is rejected with the error thrown, before anything else
    happens.  Otherwise it can only be rejected with the error of a catch
    handler (one of three messages) for a rejection that is not retryable,
    nothing having been published or reported.  Either way [handleError]
    logs the error and reports the single failure [Unhandled error: <error>],
    and the action itself never ends rejected. *)
Theorem unhandled_error_report (fuel : nat) (rd : Reads.t) (w : World) :
  (forall err, readInputs rd = Threw err ->
     action fuel rd w =
       ([ConsoleErrorThrown err; SetFailed ("Unhandled error: " ++ Thrown.toString err)],
        Fulfilled))
  /\ (forall i tr e, readInputs rd = Returned i ->
       main fuel i w = (tr, RejectedWith e) ->
       In (message e) fatalMessages
       /\ ApiError.retryable (cause e) = false
       /\ outputs tr = [] /\ failures tr = []
       /\ action fuel rd w =
            ((tr ++ [ConsoleError e;
                     SetFailed ("Unhandled error: Error: " ++ message e)])%list,
             Fulfilled))
  /\ (forall e, snd (action fuel rd w) <> RejectedWith e).
Proof.
  unfold action. split; [|split].
  - intros err ->. reflexivity.
  - intros i tr e -> H. exact (main_rejected_error fuel i w tr e H).
  - intros e. destruct (readInputs rd) as [i | err];
      [apply run_never_rejected | discriminate].
Qed.

Example missing_token_is_unhandled :
  action 3 readsWithoutToken (emptyWorld 2900)
  = ([ ConsoleErrorThrown (notSupplied "supabase-access-token");
       SetFailed
         "Unhandled error: Error: Input required and not supplied: supabase-access-token" ],
     Fulfilled).
Proof. reflexivity. Qed.

Example rejected_listing_is_unhandled :
  failures
    (fst (action 3 (readsOf (sampleInput (JS.ofZ 60)))
            (steadyWorld 2900 (remoteOf (Rejected (serverError 401))
                                 (Resolved None) (Resolved None)))))
  = ["Unhandled error: Error: Failed fetching fetching branches"].
Proof. vm_compute. reflexivity. Qed.

(** X5. A run never ends rejected, and never both publishes and fails: when
    it is fulfilled it has either set outputs and reported no failure, or
    set no output and called [setFailed] exactly once; while it is pending it
    has done neither. *)
Theorem run_publishes_or_fails (fuel : nat) (i : Input.t) (w : World) :
  match snd (run fuel i w) with
  | Fulfilled =>
      (outputs (fst (run fuel i w)) <> [] /\ failures (fst (run fuel i w)) = [])
      \/ (outputs (fst (run fuel i w)) = []
          /\ exists msg, failures (fst (run fuel i w)) = [msg])
  | RejectedWith _ => False
  | Pending =>
      outputs (fst (run fuel i w)) = [] /\ failures (fst (run fuel i w)) = []
  end.
Proof.
  pose proof (main_settled fuel i w) as Hs. unfold run.
  destruct (main fuel i w) as [tr [|e|]]; cbn [fst snd settled] in *.
  - destruct Hs as [Hs | (Ho & msg & Hf & _)]; [left; exact Hs | right].
    split; [exact Ho | exists msg; exact Hf].
  - destruct Hs as (Ho & Hf & _). right.
    rewrite outputs_app, failures_app, Ho, Hf. split; [reflexivity|].
    eexists; reflexivity.
  - exact Hs.
Qed.

(** ** Configuration checks (lines 13 to 29 and 44 to 47) *)

(** Once the inputs are read, an empty access token or project id, a NaN
    timeout or an unresolvable branch name gives exactly one failure, a
    configuration error, and nothing else. *)
Lemma invalid_inputs_fail (fuel : nat) (i : Input.t) (w : World) :
  Input.sbToken i = "" \/ Input.sbRef i = ""
  \/ JS.isNaN (Input.timeout i) = true
  \/ JS.truthyString (resolveBranchName i) = false ->
  exists msg,
    In msg configurationErrors
    /\ failures (fst (run fuel i w)) = [msg]
    /\ snd (run fuel i w) = Fulfilled
    /\ remoteCalls (fst (run fuel i w)) = []
    /\ filter isClock (fst (run fuel i w)) = []
    /\ outputs (fst (run fuel i w)) = []
    /\ (Input.sbToken i = "" -> msg = "Supabase access token is not defined").
Proof.
  intros H. unfold run, main.
  destruct (Input.sbToken i =? "") eqn:Et.
  { eexists. repeat split; simpl; auto. }
  destruct (Input.sbRef i =? "") eqn:Er.
  { eexists. repeat split; simpl; auto.
    intros E. rewrite E in Et. discriminate Et. }
  destruct (JS.isNaN (Input.timeout i)) eqn:En.
  { eexists. repeat split; simpl; auto.
    intros E. rewrite E in Et. discriminate Et. }
  destruct H as [H | [H | [H | H]]];
    [rewrite H in Et; discriminate Et | rewrite H in Er; discriminate Er
     | discriminate H |].
  destruct (resolveBranchName i) as [bn|]; cbn [JS.truthyString] in H.
  - apply negb_false_iff in H. rewrite H.
    eexists. repeat split; simpl; auto 6.
    intros E. rewrite E in Et. discriminate Et.
  - eexists. repeat split; simpl; auto 6.
    intros E. rewrite E in Et. discriminate Et.
Qed.

(** X6. An action that cannot start waiting reports exactly one failure
    and does nothing else: it never reads the clock, calls the API or sets
    an output.  When a read of lines 8 to 10 throws, the failure is the
    unhandled error thrown and nothing is marked secret.  When the reads
    return but the access token or the project id is empty, the timeout is
    NaN or the branch name cannot be resolved, the failure is one of the
    four configuration messages, the token's whenever the token read is
    empty. *)
Theorem configuration_checked_first (fuel : nat) (rd : Reads.t) (w : World) :
  (exists err, readInputs rd = Threw err)
  \/ (exists i, readInputs rd = Returned i
               /\ (Input.sbToken i = "" \/ Input.sbRef i = ""
                   \/ JS.isNaN (Input.timeout i) = true
                   \/ JS.truthyString (resolveBranchName i) = false)) ->
  exists msg,
    failures (fst (action fuel rd w)) = [msg]
    /\ snd (action fuel rd w) = Fulfilled
    /\ remoteCalls (fst (action fuel rd w)) = []
    /\ filter isClock (fst (action fuel rd w)) = []
    /\ outputs (fst (action fuel rd w)) = []
    /\ (forall err, readInputs rd = Threw err ->
          msg = "Unhandled error: " ++ Thrown.toString err
          /\ filter isSecret (fst (action fuel rd w)) = [])
    /\ (forall i, readInputs rd = Returned i ->
          In msg configurationErrors
          /\ (Input.sbToken i = "" -> msg = "Supabase access token is not defined")).
Proof.
  unfold action. intros [(err & Hr) | (i & Hr & Hbad)]; rewrite Hr.
  - exists ("Unhandled error: " ++ Thrown.toString err).
    do 5 (split; [reflexivity|]). split.
    + intros err' E. injection E as <-. split; reflexivity.
    + intros i E. discriminate E.
  - destruct (invalid_inputs_fail fuel i w Hbad)
      as (msg & Hin & Hf & Hs & Hc & Hk & Ho & Ht).
    exists msg. do 5 (split; [assumption|]). split.
    + intros err E. discriminate E.
    + intros i' E. injection E as <-. split; assumption.
Qed.

Lemma configuration_checked_first_witness :
  exists msg,
    failures (fst (action 3 readsWithoutToken (emptyWorld 2900))) = [msg]
    /\ snd (action 3 readsWithoutToken (emptyWorld 2900)) = Fulfilled.
Proof.
  destruct (configuration_checked_first 3 readsWithoutToken (emptyWorld 2900))
    as (msg & H1 & H2 & _).
  - left. eexists. reflexivity.
  - exists msg; split; assumption.
Defined.

Example nan_timeout_is_a_configuration_error :
  failures (fst (action 3 (readsOf (sampleInput JS.NaN)) (emptyWorld 2900)))
  = ["Timeout is not a valid number"].
Proof. reflexivity. Qed.

(** ** What is marked secret (lines 13, 14, 116, 138 and 153) *)

Lemma marksOnlyOutputs_nil : marksOnlyOutputs [].
Proof. intros pre v post H. destruct pre; discriminate H. Qed.

Lemma marksOnlyOutputs_app (a b : trace) :
  marksOnlyOutputs a -> marksOnlyOutputs b -> marksOnlyOutputs (a ++ b)%list.
Proof.
  intros Ha Hb pre v post H.
  apply app_eq_app in H. destruct H as (m & [[Ea Eb] | [Ea Eb]]).
  - destruct m as [|x m]; simpl in Eb.
    + apply (Hb [] v post). symmetry; exact Eb.
    + injection Eb as <- ->.
      destruct (Ha pre v m Ea) as (k & post' & ->).
      exists k, (post' ++ b)%list. reflexivity.
  - exact (Hb m v post Eb).
Qed.

Lemma marksOnlyOutputs_single (e : event) :
  (forall v, e <> SetSecret v) -> marksOnlyOutputs [e].
Proof.
  intros He pre v post H.
  destruct pre as [|x pre]; simpl in H.
  - injection H as -> _. destruct (He v eq_refl).
  - injection H as _ H. destruct pre; discriminate H.
Qed.

Lemma marksOnlyOutputs_pair k v : marksOnlyOutputs [SetSecret v; SetOutput k v].
Proof.
  intros pre v' post H.
  destruct pre as [|x [|y pre]]; simpl in H.
  - injection H as <- <-. eauto.
  - discriminate H.
  - injection H as _ _ H. destruct pre; discriminate H.
Qed.

Lemma body_marksOnlyOutputs l r : marksOnlyOutputs (fst (body l r)).
Proof.
  apply shape_body.
  - exact marksOnlyOutputs_nil.
  - exact marksOnlyOutputs_app.
  - intros e He. apply marksOnlyOutputs_single. intros v ->. discriminate He.
  - intros k v _. apply marksOnlyOutputs_pair.
  - intros k v _. apply marksOnlyOutputs_single. discriminate.
Qed.

Lemma marksOnlyOutputs_cons e tr :
  (forall v, e <> SetSecret v) -> marksOnlyOutputs tr -> marksOnlyOutputs (e :: tr).
Proof.
  intros He Htr.
  apply (marksOnlyOutputs_app [e] tr); [apply marksOnlyOutputs_single, He | exact Htr].
Qed.

Lemma loop_marksOnlyOutputs fuel l now w k : marksOnlyOutputs (fst (loop fuel l now w k)).
Proof.
  revert k. induction fuel as [|fuel IH]; intros k; [exact marksOnlyOutputs_nil|].
  cbn [loop]. pose proof (body_marksOnlyOutputs l (remote w k)) as Hb.
  specialize (IH (S k)).
  destruct (guard l now (clock w (S k))).
  - destruct (body l (remote w k)) as [tr [[]| | |e]]; cbn [fst] in Hb;
      try destruct (loop fuel l now w (S k)) as [tr' o]; cbn [fst] in *;
      apply marksOnlyOutputs_cons; try discriminate;
      try apply marksOnlyOutputs_app; assumption.
  - repeat (apply marksOnlyOutputs_cons; [discriminate|]).
    exact marksOnlyOutputs_nil.
Qed.

(** Once the inputs are read, the run begins by marking the access token and
    the project id; every later marking is followed at once by an output of
    the marked value. *)
Lemma run_marks_inputs_then_outputs (fuel : nat) (i : Input.t) (w : World) :
  exists rest,
    fst (run fuel i w)
      = SetSecret (Input.sbToken i) :: SetSecret (Input.sbRef i) :: rest
    /\ marksOnlyOutputs rest.
Proof.
  assert (Hfail : forall msg, marksOnlyOutputs [SetFailed msg])
    by (intros msg; apply marksOnlyOutputs_single; discriminate).
  assert (Hmain : exists rest,
            fst (main fuel i w)
              = SetSecret (Input.sbToken i) :: SetSecret (Input.sbRef i) :: rest
            /\ marksOnlyOutputs rest).
  { unfold main.
    destruct (Input.sbToken i =? ""); [eexists; split; [reflexivity | apply Hfail]|].
    destruct (Input.sbRef i =? ""); [eexists; split; [reflexivity | apply Hfail]|].
    destruct (JS.isNaN (Input.timeout i)); [eexists; split; [reflexivity | apply Hfail]|].
    destruct (resolveBranchName i) as [bn|].
    - destruct (bn =? "").
      + eexists; split; [reflexivity|].
        apply marksOnlyOutputs_cons; [discriminate | apply Hfail].
      + match goal with
        | |- context [loop fuel ?l ?n w 0%nat] =>
            pose proof (loop_marksOnlyOutputs fuel l n w 0%nat) as Hl;
            destruct (loop fuel l n w 0%nat) as [tr o]
        end.
        cbn [fst] in *. eexists; split; [reflexivity|].
        repeat (apply marksOnlyOutputs_cons; [discriminate|]). exact Hl.
    - eexists; split; [reflexivity|].
      apply marksOnlyOutputs_cons; [discriminate | apply Hfail]. }
  destruct Hmain as (rest & Hm & Hr). unfold run.
  destruct (main fuel i w) as [tr [|e|]]; cbn [fst] in *; subst tr; eauto.
  exists (rest ++ handleError e)%list. split; [reflexivity|].
  apply marksOnlyOutputs_app; [exact Hr|]. unfold handleError.
  repeat (apply marksOnlyOutputs_cons; [discriminate|]). exact marksOnlyOutputs_nil.
Qed.

(** X7. An action whose input reads return begins by marking the access
    token and the project id as secret, before anything is logged, read or
    called; after that, the only values ever marked secret are values it
    sets as outputs, each set right after it is marked.  An action whose
    input read throws marks nothing at all. *)
Theorem only_inputs_and_outputs_marked (fuel : nat) (rd : Reads.t) (w : World) :
  match readInputs rd with
  | Returned i =>
      exists rest,
        fst (action fuel rd w)
          = SetSecret (Input.sbToken i) :: SetSecret (Input.sbRef i) :: rest
        /\ marksOnlyOutputs rest
  | Threw err =>
      fst (action fuel rd w) = handleThrown err
      /\ filter isSecret (fst (action fuel rd w)) = []
  end.
Proof.
  unfold action. destruct (readInputs rd) as [i | err].
  - apply run_marks_inputs_then_outputs.
  - split; reflexivity.
Qed.

(** ** The branch name (lines 37 to 47) *)

Lemma prefix_append (sep rest : string) : String.prefix sep (sep ++ rest) = true.
Proof.
  induction sep as [|c sep IH]; simpl; [destruct rest; reflexivity|].
  destruct (ascii_dec c c) as [_ | Hc]; [exact IH | destruct (Hc eq_refl)].
Qed.

Lemma append_empty_r (s : string) : s ++ "" = s.
Proof. induction s as [|c s IH]; simpl; [reflexivity | now rewrite IH]. Qed.

Lemma append_cons_assoc (p : string) (c : ascii) (s : string) :
  (p ++ String.String c "") ++ s = p ++ String.String c s.
Proof. induction p as [|x p IH]; simpl; [reflexivity | now rewrite IH]. Qed.

(** Without an occurrence of the separator the string is the only piece. *)
Lemma splitFrom_no_occurrence (sep s piece : string) :
  occurs sep s = false -> JS.splitFrom sep s piece O = [piece ++ s].
Proof.
  revert piece. induction s as [|c s IH]; intros piece H.
  - simpl. now rewrite append_empty_r.
  - cbn [occurs] in H. apply orb_false_iff in H. destruct H as [Hp Ho].
    cbn [JS.splitFrom]. rewrite Hp, (IH _ Ho), append_cons_assoc. reflexivity.
Qed.

Lemma splitFrom_skip (sep skipped s piece : string) :
  JS.splitFrom sep (skipped ++ s) piece (String.length skipped)
  = JS.splitFrom sep s piece O.
Proof. induction skipped as [|c skipped IH]; simpl; [reflexivity | exact IH]. Qed.

(** A string that starts with the separator splits into the empty piece
    followed by the pieces of what follows. *)
Lemma split_leading_separator (sep s : string) :
  sep <> "" -> JS.split (sep ++ s) sep = "" :: JS.split s sep.
Proof.
  intros Hsep. unfold JS.split.
  destruct sep as [|c sep]; [contradiction|].
  change (String.String c sep ++ s) with (String.String c (sep ++ s)).
  cbn [JS.splitFrom].
  change (String.String c (sep ++ s)) with (String.String c sep ++ s).
  rewrite prefix_append. cbn [String.length Nat.pred].
  rewrite splitFrom_skip. reflexivity.
Qed.

(** X8. Without a pull-request head ref, a [GITHUB_REF] of the form
    [refs/heads/<name>] resolves to [<name>], slashes included, as long as
    [<name>] does not itself contain [refs/heads/]. *)
Theorem branch_name_from_ref (i : Input.t) (name : string) :
  JS.truthyString (Input.GITHUB_HEAD_REF i) = false ->
  Input.GITHUB_REF i = Some ("refs/heads/" ++ name) ->
  occurs "refs/heads/" name = false ->
  resolveBranchName i = Some name.
Proof.
  intros Hh Hr Ho. unfold resolveBranchName. rewrite Hh, Hr.
  rewrite split_leading_separator by discriminate.
  unfold JS.split. rewrite (splitFrom_no_occurrence _ _ _ Ho). reflexivity.
Qed.

Lemma branch_name_from_ref_witness :
  resolveBranchName
    (withGithubRef (sampleInput (JS.ofZ 60)) (Some "refs/heads/feature/login"))
  = Some "feature/login".
Proof.
  exact (branch_name_from_ref
           (withGithubRef (sampleInput (JS.ofZ 60)) (Some "refs/heads/feature/login"))
           "feature/login" eq_refl eq_refl eq_refl).
Defined.

(** X9. Without a pull-request head ref, a run whose [GITHUB_REF] is unset
    or holds no [refs/heads/] (a tag ref, a pull-request merge ref) logs
    [undefined] and fails with "Git branch not found" before reading the
    clock or calling the API. *)
Theorem ref_without_heads_fails (fuel : nat) (i : Input.t) (w : World) :
  Input.sbToken i <> "" -> Input.sbRef i <> "" ->
  JS.isNaN (Input.timeout i) = false ->
  JS.truthyString (Input.GITHUB_HEAD_REF i) = false ->
  (Input.GITHUB_REF i = None
   \/ exists s, Input.GITHUB_REF i = Some s /\ occurs "refs/heads/" s = false) ->
  run fuel i w =
    ([ SetSecret (Input.sbToken i); SetSecret (Input.sbRef i);
       ConsoleLog "undefined"; SetFailed "Git branch not found" ], Fulfilled).
Proof.
  intros Ht Hr Hn Hh Href. apply String.eqb_neq in Ht, Hr.
  assert (Hres : resolveBranchName i = None).
  { unfold resolveBranchName. rewrite Hh.
    destruct Href as [-> | (s & -> & Ho)]; [reflexivity|].
    unfold JS.split. rewrite (splitFrom_no_occurrence _ _ _ Ho). reflexivity. }
  unfold run, main. rewrite Ht, Hr, Hn, Hres. reflexivity.
Qed.

Lemma ref_without_heads_fails_witness :
  failures
    (fst (run 3 (withGithubRef (sampleInput (JS.ofZ 60)) (Some "refs/pull/12/merge"))
            (emptyWorld 2900)))
  = ["Git branch not found"].
Proof.
  rewrite (ref_without_heads_fails 3
             (withGithubRef (sampleInput (JS.ofZ 60)) (Some "refs/pull/12/merge"))
             (emptyWorld 2900)); [reflexivity | discriminate | discriminate
             | reflexivity | reflexivity |].
  right. exists "refs/pull/12/merge". split; reflexivity.
Defined.

(** X10. When the pull-request head ref is set and not empty, [GITHUB_REF]
    plays no part: the run is the same whatever it holds. *)
Theorem head_ref_takes_precedence (fuel : nat) (i : Input.t) (w : World)
    (ref : option string) :
  JS.truthyString (Input.GITHUB_HEAD_REF i) = true ->
  run fuel (withGithubRef i ref) w = run fuel i w.
Proof.
  intros H. unfold run, main, resolveBranchName, withGithubRef.
  cbn [Input.sbToken Input.sbRef Input.timeout Input.waitForMigrations
       Input.GITHUB_HEAD_REF Input.GITHUB_REF].
  rewrite H. reflexivity.
Qed.

Lemma head_ref_takes_precedence_witness :
  run 3 (withGithubRef pullRequestInput (Some "refs/pull/12/merge")) (emptyWorld 2900)
  = run 3 pullRequestInput (emptyWorld 2900).
Proof.
  exact (head_ref_takes_precedence 3 pullRequestInput (emptyWorld 2900)
           (Some "refs/pull/12/merge") eq_refl).
Defined.

(** ** Waiting ticks (lines 56 to 74 and 170 to 173) *)

(** X11. A tick that runs to the end of the loop body (it neither returns,
    throws nor continues) made the listing call and nothing else remote, set
    no output, and ended on the waiting notice naming the branch followed by
    the 2900 ms sleep; before the notice there is at most the warning of a
    failed listing. *)
Theorem normal_tick_waits (l : Locals) (r : Remote) :
  snd (body l r) = Normal tt ->
  exists warnings status,
    fst (body l r) =
      (GetBranches (sbRef l) :: warnings
         ++ [ CoreInfo ("Waiting for branch " ++ branchName l
                          ++ " to be created. Status=" ++ status);
              Sleep 2900 ])%list
    /\ (warnings = [] \/ exists msg, warnings = [CoreWarning msg])
    /\ outputs (fst (body l r)) = []
    /\ actedUpon l r = None.
Proof.
  intros Hn.
  assert (Ho : outputs (fst (body l r)) = [])
    by (apply body_outputs_iff_return; rewrite Hn; discriminate).
  unfold actedUpon.
  destruct (getBranches r (sbRef l)) as [branches | err] eqn:Hb.
  - destruct (ready (waitForMigrations l) (findBranch (branchName l) branches)) eqn:Hr.
    + exfalso.
      destruct (findBranch (branchName l) branches) as [b|] eqn:Hf; [|discriminate Hr].
      pose proof (body_normal_sleeps l r Hn) as Hlast.
      rewrite (body_ready l r branches b Hb Hf Hr) in Hn, Hlast. cbn [fst snd] in *.
      revert Hn.
      destruct (getBranchDetails r (Branch.id b)) as [[d|] | e] eqn:Hd.
      * destruct (getProjectApiKeys r (Branch.project_ref b)) as [[keys|] | e] eqn:Hk.
        -- rewrite (fetch_success l r b d keys Hd Hk). discriminate.
        -- rewrite (fetch_keys_empty l r b d Hd Hk). discriminate.
        -- destruct (ApiError.retryable e) eqn:He.
           ++ rewrite (fetch_keys_retryable l r b d e Hd Hk He). discriminate.
           ++ rewrite (fetch_keys_fatal l r b d e Hd Hk He). discriminate.
      * rewrite (fetch_details_empty l r b Hd). discriminate.
      * destruct (ApiError.retryable e) eqn:He.
        -- rewrite (fetch_details_retryable l r b e Hd He). discriminate.
        -- rewrite (fetch_details_fatal l r b e Hd He). discriminate.
    + exists [], (statusText (findBranch (branchName l) branches)).
      rewrite (body_not_ready l r branches Hb Hr) in *.
      repeat split; auto.
  - destruct (ApiError.retryable err) eqn:Hr.
    + exists [CoreWarning ("Failed fetching fetching branches: " ++ ApiError.toString err)],
        "undefined".
      rewrite (body_listing_retryable l r err Hb Hr) in *.
      repeat split; eauto.
    + rewrite (body_listing_fatal l r err Hb Hr) in Hn. discriminate Hn.
Qed.

Lemma normal_tick_waits_witness :
  outputs (fst (body (sampleLocals true 60)
                  (remoteOf (Resolved [sampleBranch "feat-x" "RUNNING_MIGRATIONS"])
                     (Resolved (Some sampleDetails)) (Resolved (Some sampleKeys)))))
  = [].
Proof.
  destruct (normal_tick_waits (sampleLocals true 60)
              (remoteOf (Resolved [sampleBranch "feat-x" "RUNNING_MIGRATIONS"])
                 (Resolved (Some sampleDetails)) (Resolved (Some sampleKeys)))
              eq_refl) as (ws & st & _ & _ & H & _).
  exact H.
Defined.

(** ** Finite, infinite and exhausted timeouts (line 55) *)

(** X12. With a finite timeout whose thousandfold, the limit in
    milliseconds, does not overflow to [Infinity], and a clock that advances
    at every reading, the wait loop ends: from some number of iterations on,
    its promise is settled (fulfilled or rejected), whatever the API
    answers. *)
Theorem wait_loop_ends (l : Locals) (w : World) (q : Q) :
  timeout l = JS.Finite q ->
  JS.mul (timeout l) (JS.ofZ 1000) <> JS.Infinity ->
  (forall n, clock w n < clock w (S n)) ->
  exists fuel, forall extra, snd (loop (fuel + extra) l (clock w O) w O) <> Pending.
Proof.
  intros Hq Hfin Hclock.
  assert (Hcases : JS.mul (timeout l) (JS.ofZ 1000) = JS.NegInfinity
                   \/ exists p, JS.mul (timeout l) (JS.ofZ 1000) = JS.Finite p).
  { rewrite Hq in *. cbn [JS.mul JS.ofZ] in *.
    destruct (roundDouble_cases (q * inject_Z 1000)) as [H | [H | H]]; auto.
    contradiction. }
  destruct Hcases as [Hneg | (p & Hp)].
  - exists 1%nat. intros extra. change (1 + extra)%nat with (S extra).
    rewrite loop_step_timeout; [discriminate|].
    unfold guard. rewrite Hneg. reflexivity.
  - exists (S (Z.to_nat (Qceiling p))). intros extra.
    change (S ?a + extra)%nat with (S (a + extra)).
    apply (loop_ends_from l w p _ O Hp Hclock). lia.
Qed.

Lemma wait_loop_ends_witness :
  exists fuel, forall extra,
    snd (loop (fuel + extra) (sampleLocals true 5)
           (clock (emptyWorld 2900) O) (emptyWorld 2900) O) <> Pending.
Proof.
  apply (wait_loop_ends (sampleLocals true 5) (emptyWorld 2900) 5 eq_refl).
  - vm_compute. discriminate.
  - intros n. cbn [clock emptyWorld steadyWorld]. lia.
Defined.

(** A finite timeout can be too large for its thousandfold: the limit is
    then [Infinity] and the loop condition holds at every reading. *)
Example overflowing_timeout :
  JS.mul (JS.Finite (inject_Z (10 ^ 306))) (JS.ofZ 1000) = JS.Infinity
  /\ forall now t,
       guard {| sbRef := "parentref"; branchName := "feat-x";
                waitForMigrations := true;
                timeout := JS.Finite (inject_Z (10 ^ 306)) |} now t = true.
Proof.
  assert (H : JS.mul (JS.Finite (inject_Z (10 ^ 306))) (JS.ofZ 1000) = JS.Infinity)
    by (vm_compute; reflexivity).
  split; [exact H|]. intros now t. unfold guard. cbn [timeout]. rewrite H. reflexivity.
Qed.

Lemma guard_infinite l now t : timeout l = JS.Infinity -> guard l now t = true.
Proof. intros H. unfold guard. rewrite H. reflexivity. Qed.

(** X13. An infinite timeout never expires: the loop condition holds at
    every clock reading, and as long as no tick returns or throws the loop
    stays pending, for any number of iterations, without reporting a
    failure. *)
Theorem infinite_timeout_never_expires (l : Locals) (now : Z) (w : World) :
  timeout l = JS.Infinity ->
  (forall t, guard l now t = true)
  /\ ((forall k, snd (body l (remote w k)) = Normal tt
                 \/ snd (body l (remote w k)) = Continue) ->
      forall fuel k,
        snd (loop fuel l now w k) = Pending
        /\ failures (fst (loop fuel l now w k)) = []).
Proof.
  intros Hinf. split; [intros t; apply guard_infinite, Hinf|].
  intros Hticks fuel.
  assert (Hp : forall k, snd (loop fuel l now w k) = Pending).
  { induction fuel as [|fuel IH]; intros k; [reflexivity|].
    rewrite (loop_step_next fuel l now w k (fst (body l (remote w k))));
      [apply IH | apply guard_infinite, Hinf | reflexivity | apply Hticks]. }
  intros k. split; [apply Hp|].
  pose proof (loop_settled fuel l now w k) as Hs. rewrite (Hp k) in Hs.
  exact (proj2 Hs).
Qed.

Lemma infinite_timeout_never_expires_witness :
  snd (loop 7 {| sbRef := "parentref"; branchName := "feat-x";
                 waitForMigrations := true; timeout := JS.Infinity |}
         0 (emptyWorld 2900) 0) = Pending.
Proof.
  refine (proj1 (proj2 (infinite_timeout_never_expires
                          {| sbRef := "parentref"; branchName := "feat-x";
                             waitForMigrations := true; timeout := JS.Infinity |}
                          0 (emptyWorld 2900) eq_refl) _ 7%nat 0%nat)).
  intros k. left. reflexivity.
Defined.

(** X14. A timeout of zero or less starts no tick: if the clock has not
    gone back since the loop start, the first check of the loop condition
    fails and the loop only reports the timeout, without any remote call. *)
Theorem exhausted_timeout_starts_no_tick (fuel : nat) (l : Locals) (now : Z)
    (w : World) (k : nat) (q : Q) :
  timeout l = JS.Finite q -> (q <= 0)%Q -> now <= clock w (S k) ->
  loop (S fuel) l now w k =
    ([DateNow (clock w (S k)); SetFailed (timeoutMessage l)], Fulfilled).
Proof.
  intros Hq Hle Hclock. apply loop_step_timeout.
  unfold guard. rewrite Hq. apply nonpositive_limit_guard; [exact Hle | lia].
Qed.

Lemma exhausted_timeout_starts_no_tick_witness :
  loop 4 (sampleLocals true 0) 1000000 (emptyWorld 2900) 0
  = ([DateNow 1002900; SetFailed "Timeout waiting for branch feat-x to be created"],
     Fulfilled).
Proof.
  apply (exhausted_timeout_starts_no_tick 3 (sampleLocals true 0) 1000000
           (emptyWorld 2900) 0 0 eq_refl).
  - discriminate.
  - cbn [clock emptyWorld steadyWorld]. lia.
Defined.

(** ** The outputs of a successful tick (lines 115 to 165) *)

(** X15. When the candidate acted upon has no field whose value is the
    string "status" and both fetches yield a value, the tick returns having
    set, in this order: [<name>_key] for each credential, each truthy
    summary field under its own name, each truthy detail field under its own
    name, then [api_url] and [graphql_url] built from the detail's [ref]. *)
Theorem ready_tick_publishes_documented (l : Locals) (r : Remote) (b : Branch.t)
    (d : BranchDetails.t) (keys : list ApiKey.t) :
  actedUpon l r = Some b ->
  getBranchDetails r (Branch.id b) = Resolved (Some d) ->
  getProjectApiKeys r (Branch.project_ref b) = Resolved (Some keys) ->
  (forall key, In key branchKeys ->
               JS.strictEqString (Branch.get b key) "status" = false) ->
  snd (body l r) = Return
  /\ outputs (fst (body l r)) =
       (map (fun k => ((ApiKey.name k ++ "_key")%string, ApiKey.api_key k)) keys
        ++ documentedBranchOutputs b ++ documentedDetailOutputs d ++ urlOutputs d)%list.
Proof.
  intros Ha Hd Hk Hns. unfold actedUpon in Ha.
  destruct (getBranches r (sbRef l)) as [branches | e0] eqn:Hb; [|discriminate Ha].
  destruct (ready (waitForMigrations l) (findBranch (branchName l) branches)) eqn:Hr;
    [|discriminate Ha].
  rewrite Ha in Hr.
  rewrite (body_ready l r branches b Hb Ha Hr). cbn [fst snd outputs].
  split; [rewrite (fetch_success l r b d keys Hd Hk); reflexivity|].
  rewrite (fetch_success_outputs l r b d keys Hd Hk). unfold fullOutputs.
  rewrite <- publishBranch_outputs, (publishBranch_roundtrip b Hns). reflexivity.
Qed.

Lemma ready_tick_publishes_documented_witness :
  snd (body (sampleLocals false 60)
         (remoteOf (Resolved [sampleBranch "feat-x" "CREATING_PROJECT"])
            (Resolved (Some sampleDetails)) (Resolved (Some sampleKeys))))
  = Return.
Proof.
  refine (proj1 (ready_tick_publishes_documented (sampleLocals false 60)
                   (remoteOf (Resolved [sampleBranch "feat-x" "CREATING_PROJECT"])
                      (Resolved (Some sampleDetails)) (Resolved (Some sampleKeys)))
                   (sampleBranch "feat-x" "CREATING_PROJECT") sampleDetails sampleKeys
                   eq_refl eq_refl eq_refl _)).
  intros key Hkey. unfold branchKeys in Hkey; simpl in Hkey.
  repeat (destruct Hkey as [<- | Hkey]; [reflexivity|]). destruct Hkey.
Defined.

Lemma lastChar_key_suffix (name : string) : lastChar (name ++ "_key") = Some "y"%char.
Proof.
  induction name as [|c name IH]; [reflexivity|].
  simpl. destruct (name ++ "_key") eqn:E; [destruct name; discriminate E | exact IH].
Qed.

Lemma fieldOutput_key key value k v : In (k, v) (fieldOutput key value) -> k = key.
Proof.
  unfold fieldOutput. destruct (JS.truthy value); [|intros []].
  intros [H | []]. injection H as <- _. reflexivity.
Qed.

Lemma fixedOutputs_lastChar b d k v :
  In (k, v) (fixedOutputs b d) -> lastChar k <> Some "y"%char.
Proof.
  unfold fixedOutputs. rewrite !in_app_iff. intros [H | [H | H]].
  - apply in_flat_map in H. destruct H as (key & Hkey & H).
    unfold branchKeys in Hkey; simpl in Hkey.
    destruct (branchOutput_key b key k v H) as [-> | [_ ->]];
      repeat (destruct Hkey as [<- | Hkey]; [discriminate|]); destruct Hkey.
  - unfold documentedDetailOutputs in H.
    apply in_flat_map in H. destruct H as (key & Hkey & H).
    apply fieldOutput_key in H. subst k.
    unfold branchDetailsKeys in Hkey; simpl in Hkey.
    repeat (destruct Hkey as [<- | Hkey]; [discriminate|]). destruct Hkey.
  - unfold urlOutputs in H. simpl in H.
    destruct H as [H | [H | []]]; injection H as <- _; discriminate.
Qed.

(** X16. No credential output [<name>_key] can clash with another output
    of the tick: whatever the credential is called, its key differs from the
    key of every summary, detail and URL output. *)
Theorem credential_key_never_clashes (b : Branch.t) (d : BranchDetails.t)
    (name k v : string) :
  In (k, v) (fixedOutputs b d) -> k <> name ++ "_key".
Proof.
  intros H ->. apply (fixedOutputs_lastChar b d _ v H). apply lastChar_key_suffix.
Qed.

Lemma credential_key_never_clashes_witness : "db_host" <> "db_host" ++ "_key".
Proof.
  apply (credential_key_never_clashes (sampleBranch "feat-x" "MIGRATIONS_PASSED")
           sampleDetails "db_host" "db_host" "db.childref.supabase.co").
  unfold fixedOutputs. rewrite !in_app_iff. right; left. simpl. auto.
Defined.

Lemma fullOutputs_split b d keys :
  fullOutputs b d keys =
    (map (fun k => ((ApiKey.name k ++ "_key")%string, ApiKey.api_key k)) keys
     ++ fixedOutputs b d)%list.
Proof. reflexivity. Qed.

Lemma fixedKeys_NoDup : NoDup fixedKeys.
Proof.
  unfold fixedKeys, branchKeys, branchDetailsKeys. cbn [app].
  repeat (constructor;
          [simpl; intros H; repeat (destruct H as [H | H]; [discriminate H|]); exact H|]).
  constructor.
Qed.

Lemma sourceKeys_filter (g : string -> list (string * string)) (h : string -> bool)
    (ks : list string) :
  (forall k, In k ks -> map sourceKey (map fst (g k)) = if h k then [k] else []) ->
  map sourceKey (map fst (flat_map g ks)) = filter h ks.
Proof.
  induction ks as [|k ks IH]; intros H; [reflexivity|].
  cbn [flat_map filter]. rewrite !map_app, (H k) by (left; reflexivity).
  rewrite IH by (intros x Hx; apply H; right; exact Hx).
  destruct (h k); reflexivity.
Qed.

Lemma fixedOutputs_sources b d :
  map sourceKey (map fst (fixedOutputs b d)) = filter (isSet b d) fixedKeys.
Proof.
  unfold fixedOutputs, fixedKeys. rewrite !map_app, !filter_app. f_equal; [|f_equal].
  - apply sourceKeys_filter. intros k Hk.
    unfold branchKeys in Hk; simpl in Hk.
    repeat (destruct Hk as [<- | Hk];
            [unfold branchOutput, isSet; cbv zeta; cbn [existsb branchKeys String.eqb Ascii.eqb Bool.eqb orb];
             destruct (JS.truthy _); [destruct (JS.strictEqString _ _)|]; reflexivity|]).
    destruct Hk.
  - unfold documentedDetailOutputs. apply sourceKeys_filter. intros k Hk.
    unfold branchDetailsKeys in Hk; simpl in Hk.
    repeat (destruct Hk as [<- | Hk];
            [unfold fieldOutput, isSet; cbn [existsb branchKeys branchDetailsKeys String.eqb Ascii.eqb Bool.eqb orb];
             destruct (JS.truthy _); reflexivity|]).
    destruct Hk.
Qed.

(** X17. The summary, detail and URL outputs of a tick all have different
    keys, renamed or not: none of them overwrites another, and each field is
    set at most once. *)
Theorem fixed_output_keys_distinct (b : Branch.t) (d : BranchDetails.t) :
  NoDup (map fst (fixedOutputs b d))
  /\ map sourceKey (map fst (fixedOutputs b d)) = filter (isSet b d) fixedKeys.
Proof.
  split; [|apply fixedOutputs_sources].
  apply (NoDup_map_inv sourceKey). rewrite fixedOutputs_sources.
  apply NoDup_filter, fixedKeys_NoDup.
Qed.

(** ** One publishing tick, then nothing (lines 158 to 167) *)

Lemma body_return_publishes l r :
  snd (body l r) = Return ->
  exists b d keys,
    actedUpon l r = Some b
    /\ getBranchDetails r (Branch.id b) = Resolved (Some d)
    /\ getProjectApiKeys r (Branch.project_ref b) = Resolved (Some keys)
    /\ outputs (fst (body l r)) = fullOutputs b d keys.
Proof.
  intros Hret.
  destruct (body_all_or_nothing l r)
    as [[_ Hn] | (branches & b & d & keys & Hb & Hf & Hd & Hk & _ & Ho)];
    [contradiction|].
  exists b, d, keys. repeat split; try assumption.
  rewrite (actedUpon_resolved l r branches Hb).
  destruct (ready (waitForMigrations l) (findBranch (branchName l) branches)) eqn:Hr;
    [exact Hf|].
  rewrite (body_not_ready l r branches Hb Hr) in Hret. discriminate Hret.
Qed.

Lemma loop_outputs_from_one_tick fuel l now w k :
  outputs (fst (loop fuel l now w k)) <> [] ->
  exists n b d keys,
    (k <= n)%nat
    /\ actedUpon l (remote w n) = Some b
    /\ getBranchDetails (remote w n) (Branch.id b) = Resolved (Some d)
    /\ getProjectApiKeys (remote w n) (Branch.project_ref b) = Resolved (Some keys)
    /\ outputs (fst (loop fuel l now w k)) = fullOutputs b d keys.
Proof.
  revert k. induction fuel as [|fuel IH]; intros k; [intros H; destruct (H eq_refl)|].
  destruct (guard l now (clock w (S k))) eqn:Hg.
  - destruct (body_outputs_iff_return l (remote w k)) as [_ Hnot].
    pose proof (body_return_publishes l (remote w k)) as Hpub.
    destruct (body l (remote w k)) as [tr c] eqn:Hb. cbn [fst snd] in *.
    assert (Hnext : c = Normal tt \/ c = Continue ->
              outputs (fst (loop (S fuel) l now w k)) <> [] ->
              exists n b d keys,
                (k <= n)%nat
                /\ actedUpon l (remote w n) = Some b
                /\ getBranchDetails (remote w n) (Branch.id b) = Resolved (Some d)
                /\ getProjectApiKeys (remote w n) (Branch.project_ref b)
                   = Resolved (Some keys)
                /\ outputs (fst (loop (S fuel) l now w k)) = fullOutputs b d keys).
    { intros Hc.
      rewrite (loop_step_next fuel l now w k tr Hg) by (rewrite Hb; auto).
      cbn [fst outputs]. rewrite outputs_app.
      rewrite Hnot by (destruct Hc as [-> | ->]; discriminate). cbn [app].
      intros H. destruct (IH (S k) H) as (n & b & d & keys & Hn & Hrest).
      exists n, b, d, keys. split; [lia | exact Hrest]. }
    destruct c as [[]| | |e]; auto.
    + rewrite (loop_step_return fuel l now w k tr Hg Hb). cbn [fst outputs]. intros _.
      destruct (Hpub eq_refl) as (b & d & keys & H).
      exists k, b, d, keys. split; [lia | exact H].
    + rewrite (loop_step_throw fuel l now w k tr e Hg Hb). cbn [fst outputs].
      rewrite Hnot by discriminate. intros H; destruct (H eq_refl).
  - rewrite (loop_step_timeout fuel l now w k Hg). intros H; destruct (H eq_refl).
Qed.

(** X18. A wait loop that sets any output sets the outputs of exactly one
    tick, the complete set for the candidate that tick acted upon, and stops
    there: its promise is fulfilled, no failure is reported, and the last
    thing it does is to log "success" (no further polling). *)
Theorem published_once_then_stops (fuel : nat) (l : Locals) (now : Z) (w : World)
    (k : nat) :
  outputs (fst (loop fuel l now w k)) <> [] ->
  (exists n b d keys,
     (k <= n)%nat
     /\ actedUpon l (remote w n) = Some b
     /\ getBranchDetails (remote w n) (Branch.id b) = Resolved (Some d)
     /\ getProjectApiKeys (remote w n) (Branch.project_ref b) = Resolved (Some keys)
     /\ outputs (fst (loop fuel l now w k)) = fullOutputs b d keys)
  /\ snd (loop fuel l now w k) = Fulfilled
  /\ failures (fst (loop fuel l now w k)) = []
  /\ lastEvent (fst (loop fuel l now w k)) = Some (CoreInfo "success").
Proof.
  intros Ho. split; [apply loop_outputs_from_one_tick, Ho|].
  pose proof (loop_settled fuel l now w k) as Hs.
  pose proof (loop_fulfilled_last fuel l now w k) as Hlast.
  destruct (snd (loop fuel l now w k)) as [|e|]; cbn [settled] in Hs.
  - destruct Hs as [[_ Hf] | [Hn _]]; [|contradiction].
    split; [reflexivity|]. split; [exact Hf|].
    destruct (Hlast eq_refl) as [H | H]; [exact H|].
    exfalso. clear Hlast Ho.
    assert (Hin : In (timeoutMessage l) (failures (fst (loop fuel l now w k)))).
    { revert H. generalize (fst (loop fuel l now w k)) as tr.
      induction tr as [|x tr IH]; [discriminate|].
      intros H. destruct tr as [|y tr].
      - injection H as ->. left; reflexivity.
      - rewrite lastEvent_cons in H. specialize (IH H).
        destruct x; cbn [failures]; auto. right; exact IH. }
    rewrite Hf in Hin. destruct Hin.
  - destruct Hs as (Hn & _). contradiction.
  - destruct Hs as (Hn & _). contradiction.
Qed.

Lemma published_once_then_stops_witness :
  lastEvent
    (fst (loop 3 (sampleLocals false 60) 1000000
            (steadyWorld 2900
               (remoteOf (Resolved [sampleBranch "feat-x" "CREATING_PROJECT"])
                  (Resolved (Some sampleDetails)) (Resolved (Some sampleKeys)))) 0))
  = Some (CoreInfo "success").
Proof.
  refine (proj2 (proj2 (proj2
    (published_once_then_stops 3 (sampleLocals false 60) 1000000
       (steadyWorld 2900
          (remoteOf (Resolved [sampleBranch "feat-x" "CREATING_PROJECT"])
             (Resolved (Some sampleDetails)) (Resolved (Some sampleKeys)))) 0%nat _)))).
  vm_compute. discriminate.
Defined.

(** ** The delay between ticks (line 173) *)

Lemma publishing_never_sleeps (b : Branch.t) (d : BranchDetails.t) (keys : list ApiKey.t) :
  filter isSleep (fst (publishApiKeys keys) ++ fst (publishBranch b)
                    ++ fst (publishBranchDetails d) ++ fst (publishUrls d)
                    ++ [CoreInfo "success"])%list = [].
Proof.
  assert (Happ : forall x y : trace,
             filter isSleep x = [] -> filter isSleep y = [] ->
             filter isSleep (x ++ y)%list = []).
  { intros x y Hx Hy. rewrite filter_app, Hx, Hy. reflexivity. }
  repeat apply Happ; try reflexivity.
  - apply (closed_forOf (fun tr => filter isSleep tr = []) eq_refl Happ).
    intros k _. reflexivity.
  - apply (closed_forOf (fun tr => filter isSleep tr = []) eq_refl Happ).
    intros key _. cbv zeta. destruct (JS.truthy _); reflexivity.
  - apply (closed_forOf (fun tr => filter isSleep tr = []) eq_refl Happ).
    intros key _. cbv zeta. destruct (JS.truthy _); reflexivity.
Qed.

Lemma body_sleeps l r :
  filter isSleep (fst (body l r)) =
    match snd (body l r) with
    | Normal _ => [Sleep 2900]
    | _ => []
    end.
Proof.
  destruct (getBranches r (sbRef l)) as [branches | err] eqn:Hb.
  - destruct (ready (waitForMigrations l) (findBranch (branchName l) branches)) eqn:Hr.
    + destruct (findBranch (branchName l) branches) as [b|] eqn:Hf; [|discriminate Hr].
      rewrite (body_ready l r branches b Hb Hf Hr). cbn [fst snd].
      destruct (getBranchDetails r (Branch.id b)) as [[d|] | e] eqn:Hd.
      * destruct (getProjectApiKeys r (Branch.project_ref b)) as [[keys|] | e] eqn:Hk.
        -- rewrite (fetch_success l r b d keys Hd Hk). cbn [fst snd].
           change (filter isSleep (?a :: ?b :: ?c :: ?d :: ?rest))
             with (filter isSleep rest).
           apply publishing_never_sleeps.
        -- rewrite (fetch_keys_empty l r b d Hd Hk). reflexivity.
        -- destruct (ApiError.retryable e) eqn:He.
           ++ rewrite (fetch_keys_retryable l r b d e Hd Hk He). reflexivity.
           ++ rewrite (fetch_keys_fatal l r b d e Hd Hk He). reflexivity.
      * rewrite (fetch_details_empty l r b Hd). reflexivity.
      * destruct (ApiError.retryable e) eqn:He.
        -- rewrite (fetch_details_retryable l r b e Hd He). reflexivity.
        -- rewrite (fetch_details_fatal l r b e Hd He). reflexivity.
    + rewrite (body_not_ready l r branches Hb Hr). reflexivity.
  - destruct (ApiError.retryable err) eqn:Hr.
    + rewrite (body_listing_retryable l r err Hb Hr). reflexivity.
    + rewrite (body_listing_fatal l r err Hb Hr). reflexivity.
Qed.

Lemma loop_sleeps fuel l now w k :
  Forall (eq (Sleep 2900)) (filter isSleep (fst (loop fuel l now w k))).
Proof.
  revert k. induction fuel as [|fuel IH]; intros k; [constructor|].
  cbn [loop]. pose proof (body_sleeps l (remote w k)) as Hb. specialize (IH (S k)).
  destruct (guard l now (clock w (S k))); [|constructor].
  destruct (body l (remote w k)) as [tr [[]| | |e]]; cbn [fst snd] in Hb;
    try destruct (loop fuel l now w (S k)) as [tr' o]; cbn [fst filter isSleep] in *;
    rewrite ?filter_app, Hb; try constructor; auto.
Qed.

(** X19. The only delay the program ever takes is the fixed 2900 ms: every
    sleep of a run lasts 2900 ms, and a tick sleeps exactly once when it
    runs to the end of the loop body and not at all when it returns, throws
    or continues. *)
Theorem sleep_is_fixed (fuel : nat) (i : Input.t) (w : World) :
  (forall ms, In (Sleep ms) (fst (run fuel i w)) -> ms = 2900)
  /\ (forall l r,
        filter isSleep (fst (body l r)) =
          match snd (body l r) with
          | Normal _ => [Sleep 2900]
          | _ => []
          end).
Proof.
  split; [|exact body_sleeps].
  assert (Hall : Forall (eq (Sleep 2900)) (filter isSleep (fst (run fuel i w)))).
  { unfold run, main.
    destruct (Input.sbToken i =? ""); [constructor|].
    destruct (Input.sbRef i =? ""); [constructor|].
    destruct (JS.isNaN (Input.timeout i)); [constructor|].
    destruct (resolveBranchName i) as [bn|]; [|constructor].
    destruct (bn =? ""); [constructor|].
    match goal with
    | |- context [loop fuel ?l ?n w 0%nat] =>
        pose proof (loop_sleeps fuel l n w 0%nat) as Hl;
        destruct (loop fuel l n w 0%nat) as [tr o]
    end.
    cbn [fst] in Hl.
    destruct o as [|e|]; cbn [fst app filter isSleep];
      rewrite ?filter_app; cbn [handleError filter isSleep]; rewrite ?app_nil_r;
      exact Hl. }
  intros ms Hin. rewrite Forall_forall in Hall.
  assert (Hs : Sleep 2900 = Sleep ms)
    by (apply Hall, filter_In; split; [exact Hin | reflexivity]).
  injection Hs as <-. reflexivity.
Qed.
